(** * Traffic-Equilibrium: the expression sandbox, the network model and the
      Frank-Wolfe solver, embedded from [graphdata/graph_model.py] and
      [algo/algorithms.py], with what [gui/main_window_logic.py] does to the
      graph when nodes are added and edges removed.

    Python floats are IEEE binary64 numbers and are modelled by Rocq's
    primitive floats; Python ints by [Z]; Python dicts, which keep insertion
    order, by association lists with in-place update; exceptions by an error
    monad.  What the program delegates to libraries is either modelled after
    the library's documentation ([ast.parse], [ast.walk], [eval] on the
    whitelisted fragment) or left as a parameter of the solver
    ([numpy.dot], [networkx.shortest_path]). *)

From Stdlib Require Import ZArith Floats Lia Ascii String.
From stdpp Require Import base list strings.

Open Scope Z_scope.

(** ** Exceptions and results *)

(** The exception classes that the modelled code can raise.  Only
    [UnsafeExpression] carries its message, which the properties speak about. *)
Inductive exn : Type :=
  | SyntaxError
  | UnsafeExpression (msg : string)
  | NameError
  | TypeError
  | ValueError
  | ZeroDivisionError
  | OverflowError
  | KeyError
  | IndexError
  | NodeNotFound
  | NetworkXNoPath.

(** The outcome of running a piece of Python: a value, a raised exception, or
    [OutsideModel] when the run leaves the fragment of Python whose semantics
    is written out below (string formatting, libm functions, ...).  Nothing
    is claimed about such runs. *)
Inductive result (A : Type) : Type :=
  | Ok (a : A)
  | Raise (e : exn)
  | OutsideModel.
Arguments Ok {A} a.
Arguments Raise {A} e.
Arguments OutsideModel {A}.

#[global] Instance result_ret : MRet result := fun A a => Ok a.
#[global] Instance result_bind : MBind result := fun A B k r =>
  match r with
  | Ok a => k a
  | Raise e => Raise e
  | OutsideModel => OutsideModel
  end.


(** [for x in xs: acc = body(acc, x)], stopping at the first exception. *)
Fixpoint for_each {A S} (body : S -> A -> result S) (xs : list A) (s : S)
  : result S :=
  match xs with
  | [] => Ok s
  | x :: xs' => s' ← body s x; for_each body xs' s'
  end.

(** ** Insertion-ordered dictionaries *)

(** A Python [dict]: the first entry for a key is the live one, assignment to
    an existing key updates it in place, and a new key goes to the end. *)
Module Dict.
Section Dict.
Context {K V : Type} `{EqDecision K}.

Definition t := list (K * V).

Fixpoint get (d : t) (k : K) : option V :=
  match d with
  | [] => None
  | (k', v) :: d' => if decide (k' = k) then Some v else get d' k
  end.

Fixpoint set (d : t) (k : K) (v : V) : t :=
  match d with
  | [] => [(k, v)]
  | (k', v') :: d' =>
      if decide (k' = k) then (k', v) :: d' else (k', v') :: set d' k v
  end.

Definition contains (d : t) (k : K) : bool :=
  match get d k with Some _ => true | None => false end.

Definition keys (d : t) : list K := map fst d.

(** [d[k]], raising [KeyError] on a missing key. *)
Definition item (d : t) (k : K) : result V :=
  match get d k with Some v => Ok v | None => Raise KeyError end.

(** [d.update(other)] *)
Definition update (d other : t) : t :=
  fold_left (fun acc kv => set acc (fst kv) (snd kv)) other d.
End Dict.
Arguments t : clear implicits.
End Dict.

(** ** Floats *)

Definition float_of_Z (z : Z) : float :=
  SF2Prim (binary_normalize prec emax z 0 false).

(** [float(n)] for an int: correctly rounded, [OverflowError] when the int is
    too large to convert. *)
Definition int_to_float (z : Z) : result float :=
  let x := float_of_Z z in
  if is_infinity x then Raise OverflowError else Ok x.

(** The value of the decimal literal [m * 10^(-k)], correctly rounded. *)
Definition float_of_decimal (m : Z) (k : Z) : float :=
  match m with
  | Zpos p =>
      if 0 <=? k
      then SF2Prim (SFdiv prec emax (S754_finite false p 0)
                      (S754_finite false (Z.to_pos (10 ^ k)) 0))
      else float_of_Z (m * 10 ^ (- k))
  | _ => 0%float
  end.

Definition nonneg (x : float) : Prop := (0 <=? x)%float = true.

(** ** The syntax trees of Python's [ast] module *)

(** The value held by an [ast.Constant] node. *)
Inductive constant : Type :=
  | CInt (n : Z)
  | CFloat (x : float)
  | CStr (s : string)
  | CBool (b : bool)
  | CNone.

(** The class of a node together with the fields that are not nodes
    themselves ([id], [value], [attr], [arg]). *)
Inductive kind : Type :=
  | Expression | BinOp | UnaryOp | Call | Tuple
  | Name (id : string)
  | Constant (value : constant)
  | Attribute (attr : string)
  | keyword (arg : string)
  | Load
  | Add | Sub | Mult | Div | FloorDiv | Mod | Pow
  | UAdd | USub.

(** A node and its child nodes in the order of the class's [_fields], which
    is the order in which [ast.iter_child_nodes] yields them. *)
#[local] Unset Elimination Schemes.
Inductive node : Type :=
  | Node (k : kind) (children : list node).
#[local] Set Elimination Schemes.

Definition node_kind (n : node) : kind := let 'Node k _ := n in k.
Definition iter_child_nodes (n : node) : list node := let 'Node _ c := n in c.

(** [type(n).__name__] *)
Definition type_name (k : kind) : string :=
  match k with
  | Expression => "Expression" | BinOp => "BinOp" | UnaryOp => "UnaryOp"
  | Call => "Call" | Tuple => "Tuple" | Name _ => "Name"
  | Constant _ => "Constant" | Attribute _ => "Attribute"
  | keyword _ => "keyword" | Load => "Load"
  | Add => "Add" | Sub => "Sub" | Mult => "Mult" | Div => "Div"
  | FloorDiv => "FloorDiv" | Mod => "Mod" | Pow => "Pow"
  | UAdd => "UAdd" | USub => "USub"
  end.

Definition mk_name (id : string) : node := Node (Name id) [Node Load []].
Definition mk_const (c : constant) : node := Node (Constant c) [].
Definition mk_binop (l : node) (op : kind) (r : node) : node :=
  Node BinOp [l; Node op []; r].
Definition mk_unaryop (op : kind) (operand : node) : node :=
  Node UnaryOp [Node op []; operand].
Definition mk_tuple (elts : list node) : node :=
  Node Tuple (elts ++ [Node Load []]).
Definition mk_attribute (value : node) (attr : string) : node :=
  Node (Attribute attr) [value; Node Load []].
Definition mk_call (func : node) (args keywords : list node) : node :=
  Node Call (func :: args ++ keywords).
Definition mk_keyword (arg : string) (value : node) : node :=
  Node (keyword arg) [value].

Fixpoint node_size (n : node) : nat :=
  let 'Node _ c := n in
  S ((fix sizes (l : list node) : nat :=
        match l with [] => O | x :: l' => (node_size x + sizes l')%nat end) c).

Definition forest_size (l : list node) : nat :=
  foldr (fun x acc => (node_size x + acc)%nat) O l.

(** [ast.walk]: the nodes of the tree in breadth-first order.  The library
    keeps a queue, pops its head, appends the head's children and yields the
    head; the fuel is the number of nodes still to be yielded. *)
Fixpoint walk_queue (fuel : nat) (todo : list node) : list node :=
  match fuel, todo with
  | S fuel', n :: rest => n :: walk_queue fuel' (rest ++ iter_child_nodes n)
  | _, _ => []
  end.

Definition ast_walk (n : node) : list node := walk_queue (node_size n) [n].

(** ** Tokens *)

Inductive token : Type :=
  | TNum (c : constant)
  | TStr (s : string)
  | TName (id : string)
  | TConst (c : constant)
  | TImport
  | TPlus | TMinus | TStar | TDoubleStar | TSlash | TDoubleSlash | TPercent
  | TLPar | TRPar | TComma | TDot | TEqual.

Definition code (c : ascii) : N := N_of_ascii c.
Definition between (lo hi : N) (c : ascii) : bool :=
  ((lo <=? code c) && (code c <=? hi))%N.

Definition is_digit : ascii -> bool := between 48 57.
Definition is_name_start (c : ascii) : bool :=
  between 65 90 c || between 97 122 c || (code c =? 95)%N.
Definition is_name_char (c : ascii) : bool := is_name_start c || is_digit c.
Definition is_blank (c : ascii) : bool := (code c =? 32)%N || (code c =? 9)%N.
Definition is_quote (c : ascii) : bool := (code c =? 39)%N || (code c =? 34)%N.
(** Characters of a string literal that stand for themselves. *)
Definition is_plain_char (q c : ascii) : bool :=
  between 32 126 c && negb (code c =? code q)%N && negb (code c =? 92)%N.

Fixpoint span (p : ascii -> bool) (cs : list ascii) : list ascii * list ascii :=
  match cs with
  | c :: cs' =>
      if p c then let '(a, b) := span p cs' in (c :: a, b) else ([], cs)
  | [] => ([], [])
  end.

Definition digit_value (c : ascii) : Z := Z.of_N (code c) - 48.
Definition digits_value (ds : list ascii) : Z :=
  fold_left (fun acc c => 10 * acc + digit_value c) ds 0.

Definition string_of_chars (cs : list ascii) : string :=
  foldr String EmptyString cs.
Fixpoint chars_of_string (s : string) : list ascii :=
  match s with EmptyString => [] | String c s' => c :: chars_of_string s' end.

(** The hard keywords other than [True], [False], [None] and [import]. *)
Definition other_keywords : list string :=
  ["and"; "as"; "assert"; "async"; "await"; "break"; "class"; "continue";
   "def"; "del"; "elif"; "else"; "except"; "finally"; "for"; "from";
   "global"; "if"; "in"; "is"; "lambda"; "nonlocal"; "not"; "or"; "pass";
   "raise"; "return"; "try"; "while"; "with"; "yield"]%string.

Definition starts_with (p : ascii -> bool) (cs : list ascii) : bool :=
  match cs with c :: _ => p c | [] => false end.

(** A decimal number at the head of [cs]: an int [123], or a float with a
    fraction and/or an exponent ([1.5], [1.], [.5], [2e-3]).  [None] when the
    literal is in a notation that is not modelled (a digit-led int with
    leading zeros, a suffix as in [1j], [0x10] or [1_000], thousands of
    digits). *)
Definition lex_number (cs : list ascii) : option (constant * list ascii) :=
  let '(ip, r1) := span is_digit cs in
  let '(has_dot, fp, r2) :=
    match r1 with
    | "."%char :: r =>
        let '(fp, r') := span is_digit r in (true, fp, r')
    | _ => (false, [], r1)
    end in
  let '(has_exp, ex, r3) :=
    match r2 with
    | e :: r =>
        if ((code e =? 101) || (code e =? 69))%N then
          let '(neg, r') :=
            match r with
            | "-"%char :: r' => (true, r')
            | "+"%char :: r' => (false, r')
            | _ => (false, r)
            end in
          let '(ds, r'') := span is_digit r' in
          match ds with
          | [] => (false, 0, r2)
          | _ => (true, if neg : bool then - digits_value ds else digits_value ds, r'')
          end
        else (false, 0, r2)
    | [] => (false, 0, r2)
    end in
  if starts_with (fun c => is_name_char c || negb (between 0 127 c)) r3 then None
  else if (64 <? length (ip ++ fp))%nat then None
  else if has_dot || has_exp then
    match ip ++ fp with
    | [] => None
    | ds => Some (CFloat (float_of_decimal (digits_value ds)
                            (Z.of_nat (length fp) - ex)), r3)
    end
  else
    match ip with
    | "0"%char :: _ :: _ =>
        if digits_value ip =? 0 then Some (CInt 0, r3) else None
    | _ => Some (CInt (digits_value ip), r3)
    end.

(** The token sequence of an expression text; [None] when the text uses a
    character, keyword, operator or literal notation outside the modelled
    fragment. *)
Fixpoint tokenize (fuel : nat) (cs : list ascii) : option (list token) :=
  match fuel with
  | O => None
  | S fuel' =>
      match cs with
      | [] => Some []
      | c :: rest =>
          if is_blank c then tokenize fuel' rest
          else if is_digit c || ((code c =? 46)%N && starts_with is_digit rest) then
            '(k, r) ← lex_number cs;
            ts ← tokenize fuel' r; Some (TNum k :: ts)
          else if is_name_start c then
            let '(w, r) := span is_name_char cs in
            let id := string_of_chars w in
            if starts_with (fun c => is_quote c || negb (between 0 127 c)) r then None
            else if bool_decide (id ∈ other_keywords) then None
            else
              ts ← tokenize fuel' r;
              Some ((if String.eqb id "True" then TConst (CBool true)
                     else if String.eqb id "False" then TConst (CBool false)
                     else if String.eqb id "None" then TConst CNone
                     else if String.eqb id "import" then TImport
                     else TName id) :: ts)
          else if is_quote c then
            let '(body, r) := span (is_plain_char c) rest in
            match r with
            | q :: r' =>
                if negb (code q =? code c)%N then None
                else if match body with [] => starts_with is_quote r' | _ => false end
                then None
                else ts ← tokenize fuel' r'; Some (TStr (string_of_chars body) :: ts)
            | [] => None
            end
          else
            let op1 (t : token) :=
              if starts_with (fun c => (code c =? 61)%N) rest then None
              else ts ← tokenize fuel' rest; Some (t :: ts) in
            let op2 (t : token) (r : list ascii) :=
              if starts_with (fun c => (code c =? 61)%N) r then None
              else ts ← tokenize fuel' r; Some (t :: ts) in
            match c, rest with
            | "*"%char, "*"%char :: r => op2 TDoubleStar r
            | "/"%char, "/"%char :: r => op2 TDoubleSlash r
            | "+"%char, _ => op1 TPlus
            | "-"%char, _ => op1 TMinus
            | "*"%char, _ => op1 TStar
            | "/"%char, _ => op1 TSlash
            | "%"%char, _ => op1 TPercent
            | "="%char, _ => op1 TEqual
            | "("%char, _ => ts ← tokenize fuel' rest; Some (TLPar :: ts)
            | ")"%char, _ => ts ← tokenize fuel' rest; Some (TRPar :: ts)
            | ","%char, _ => ts ← tokenize fuel' rest; Some (TComma :: ts)
            | "."%char, _ =>
                if starts_with (fun c => (code c =? 46)%N) rest then None
                else ts ← tokenize fuel' rest; Some (TDot :: ts)
            | _, _ => None
            end
      end
  end.

(** ** Parsing, after the expression grammar of CPython 3.9 to 3.13 *)

(** The adjacent string literals at the head of [ts], concatenated. *)
Fixpoint take_strings (ts : list token) : string * list token :=
  match ts with
  | TStr s :: ts' => let '(s', r) := take_strings ts' in (String.append s s', r)
  | _ => (EmptyString, ts)
  end.

(** Recursive descent over the token list.  [sum], [term], [factor], [power],
    [primary] and [atom] are the grammar's rules of these names; a starred
    element, which the grammar allows in calls and displays, is left
    unmodelled.  The fuel bounds the depth of the descent. *)
Fixpoint p_sum (n : nat) (ts : list token) {struct n}
  : result (node * list token) :=
  match n with
  | O => OutsideModel
  | S n => '(l, r) ← p_term n ts; p_sum_rest n l r
  end
with p_sum_rest (n : nat) (l : node) (ts : list token) {struct n}
  : result (node * list token) :=
  match n with
  | O => OutsideModel
  | S n =>
      match ts with
      | TPlus :: ts' => '(x, r) ← p_term n ts'; p_sum_rest n (mk_binop l Add x) r
      | TMinus :: ts' => '(x, r) ← p_term n ts'; p_sum_rest n (mk_binop l Sub x) r
      | _ => Ok (l, ts)
      end
  end
with p_term (n : nat) (ts : list token) {struct n}
  : result (node * list token) :=
  match n with
  | O => OutsideModel
  | S n => '(l, r) ← p_factor n ts; p_term_rest n l r
  end
with p_term_rest (n : nat) (l : node) (ts : list token) {struct n}
  : result (node * list token) :=
  match n with
  | O => OutsideModel
  | S n =>
      let continue_with op ts' :=
        '(x, r) ← p_factor n ts'; p_term_rest n (mk_binop l op x) r in
      match ts with
      | TStar :: ts' => continue_with Mult ts'
      | TSlash :: ts' => continue_with Div ts'
      | TDoubleSlash :: ts' => continue_with FloorDiv ts'
      | TPercent :: ts' => continue_with Mod ts'
      | _ => Ok (l, ts)
      end
  end
with p_factor (n : nat) (ts : list token) {struct n}
  : result (node * list token) :=
  match n with
  | O => OutsideModel
  | S n =>
      match ts with
      | TPlus :: ts' => '(x, r) ← p_factor n ts'; Ok (mk_unaryop UAdd x, r)
      | TMinus :: ts' => '(x, r) ← p_factor n ts'; Ok (mk_unaryop USub x, r)
      | _ => p_power n ts
      end
  end
with p_power (n : nat) (ts : list token) {struct n}
  : result (node * list token) :=
  match n with
  | O => OutsideModel
  | S n =>
      '(l, r) ← p_primary n ts;
      match r with
      | TDoubleStar :: r' => '(x, r'') ← p_factor n r'; Ok (mk_binop l Pow x, r'')
      | _ => Ok (l, r)
      end
  end
with p_primary (n : nat) (ts : list token) {struct n}
  : result (node * list token) :=
  match n with
  | O => OutsideModel
  | S n => '(a, r) ← p_atom n ts; p_trailers n a r
  end
with p_trailers (n : nat) (a : node) (ts : list token) {struct n}
  : result (node * list token) :=
  match n with
  | O => OutsideModel
  | S n =>
      match ts with
      | TDot :: TName attr :: ts' => p_trailers n (mk_attribute a attr) ts'
      | TDot :: _ => Raise SyntaxError
      | TLPar :: ts' =>
          '(args, kws, r) ← p_args n [] [] ts';
          p_trailers n (mk_call a args kws) r
      | _ => Ok (a, ts)
      end
  end
with p_args (n : nat) (args kws : list node) (ts : list token) {struct n}
  : result (list node * list node * list token) :=
  match n with
  | O => OutsideModel
  | S n =>
      let after (args kws : list node) (r : list token) :=
        match r with
        | TRPar :: r' => Ok (args, kws, r')
        | TComma :: TRPar :: r' => Ok (args, kws, r')
        | TComma :: r' => p_args n args kws r'
        | _ => Raise SyntaxError
        end in
      match ts with
      | TRPar :: ts' =>
          match args, kws with
          | [], [] => Ok ([], [], ts')
          | _, _ => Raise SyntaxError
          end
      | TStar :: _ | TDoubleStar :: _ => OutsideModel
      | TName arg :: TEqual :: ts' =>
          '(v, r) ← p_sum n ts'; after args (kws ++ [mk_keyword arg v]) r
      | _ =>
          '(v, r) ← p_sum n ts;
          match kws with
          | [] => after (args ++ [v]) kws r
          | _ => Raise SyntaxError
          end
      end
  end
with p_atom (n : nat) (ts : list token) {struct n}
  : result (node * list token) :=
  match n with
  | O => OutsideModel
  | S n =>
      match ts with
      | TNum c :: ts' | TConst c :: ts' => Ok (mk_const c, ts')
      | TName id :: ts' => Ok (mk_name id, ts')
      | TStr _ :: _ =>
          let '(s, r) := take_strings ts in Ok (mk_const (CStr s), r)
      | TLPar :: TRPar :: ts' => Ok (mk_tuple [], ts')
      | TLPar :: TStar :: _ | TLPar :: TDoubleStar :: _ => OutsideModel
      | TLPar :: ts' =>
          '(x, r) ← p_sum n ts';
          match r with
          | TRPar :: r' => Ok (x, r')
          | TComma :: r' => '(xs, r'') ← p_elts n [x] r'; Ok (mk_tuple xs, r'')
          | _ => Raise SyntaxError
          end
      | TStar :: _ | TDoubleStar :: _ => OutsideModel
      | _ => Raise SyntaxError
      end
  end
with p_elts (n : nat) (acc : list node) (ts : list token) {struct n}
  : result (list node * list token) :=
  (* inside a parenthesised tuple, after a comma *)
  match n with
  | O => OutsideModel
  | S n =>
      match ts with
      | TRPar :: ts' => Ok (acc, ts')
      | TStar :: _ | TDoubleStar :: _ => OutsideModel
      | _ =>
          '(x, r) ← p_sum n ts;
          match r with
          | TRPar :: r' => Ok (acc ++ [x], r')
          | TComma :: r' => p_elts n (acc ++ [x]) r'
          | _ => Raise SyntaxError
          end
      end
  end.

(** The start rule of [mode='eval']: one expression, or several separated by
    commas (a tuple without parentheses), up to the end of the text. *)
Fixpoint p_top (n : nat) (acc : list node) (ts : list token) {struct n}
  : result (list node * bool) :=
  match n with
  | O => OutsideModel
  | S n' =>
      '(x, r) ← p_sum n ts;
      match r with
      | [] => Ok (acc ++ [x], false)
      | [TComma] => Ok (acc ++ [x], true)
      | TComma :: r' => '(xs, _) ← p_top n' (acc ++ [x]) r'; Ok (xs, true)
      | _ => Raise SyntaxError
      end
  end.

(** [ast.parse(text, mode='eval')] on a text without surrounding blanks:
    the [Expression] tree, [SyntaxError], or [OutsideModel] for a text
    outside the modelled fragment (at most 64 tokens built from decimal
    numbers, names, plain quoted strings, [True False None import],
    [+ - * / // % ** ( ) , . =] and blanks). *)
Definition ast_parse (text : string) : result node :=
  match tokenize (S (String.length text)) (chars_of_string text) with
  | None => OutsideModel
  | Some ts =>
      if (64 <? length ts)%nat then OutsideModel
      else if existsb (fun t => match t with TImport => true | _ => false end) ts
      then Raise SyntaxError
      else
        let fuel := (8 * length ts + 8)%nat in
        '(xs, is_tuple) ← p_top fuel [] ts;
        match xs, is_tuple with
        | [x], false => Ok (Node Expression [x])
        | _, _ => Ok (Node Expression [mk_tuple xs])
        end
  end.

(** ** graph_model.py: the expression sandbox *)

(** The objects an expression can evaluate to. *)
Inductive builtin : Type :=
  | Bsqrt | Blog | Bexp | Bsin | Bcos | Btan | Babs | Bmin | Bmax.

#[local] Unset Elimination Schemes.
Inductive value : Type :=
  | VInt (n : Z)
  | VFloat (x : float)
  | VBool (b : bool)
  | VNone
  | VStr (s : string)
  | VTuple (vs : list value)
  | VBuiltin (f : builtin).
#[local] Set Elimination Schemes.

Definition math_pi : float := 0x1.921fb54442d18p+1%float.
Definition math_e : float := 0x1.5bf0a8b145769p+1%float.

(** Safe math functions/constants available to expressions *)
Definition SAFE_MATH : Dict.t string value :=
  [("sqrt", VBuiltin Bsqrt); ("log", VBuiltin Blog); ("exp", VBuiltin Bexp);
   ("sin", VBuiltin Bsin); ("cos", VBuiltin Bcos); ("tan", VBuiltin Btan);
   ("abs", VBuiltin Babs); ("min", VBuiltin Bmin); ("max", VBuiltin Bmax);
   ("pi", VFloat math_pi); ("e", VFloat math_e)]%string.

(** [isinstance(n, allowed_nodes)].  [ast.Num] is an alias that matches
    [Constant] nodes holding a number, so it adds nothing to [ast.Constant]. *)
Definition allowed_nodes (k : kind) : bool :=
  match k with
  | Expression | Call | Name _ | Load | BinOp | UnaryOp | Constant _
  | Add | Sub | Mult | Div | Pow | Mod | USub | UAdd | Tuple => true
  | Attribute _ | keyword _ | FloorDiv => false
  end.

Definition known_name (id : string) : bool :=
  String.eqb id "f" || Dict.contains SAFE_MATH id.

(** The body of the loop over [ast.walk(node)]. *)
Definition check_node (n : node) : result unit :=
  let k := node_kind n in
  if negb (allowed_nodes k) then
    Raise (UnsafeExpression ("Disallowed expression element: " +:+ type_name k))
  else
    match k with
    | Name id =>
        if negb (known_name id)
        then Raise (UnsafeExpression ("Unknown name: " +:+ id))
        else Ok ()
    | _ => Ok ()
    end.

(** [str.strip()] on ASCII text: the whitespace characters are 9 to 13, 28
    to 31 and 32. *)
Definition is_space (c : ascii) : bool :=
  between 9 13 c || between 28 32 c.

Definition lstrip (cs : list ascii) : list ascii := snd (span is_space cs).
Definition strip (s : string) : string :=
  string_of_chars (rev (lstrip (rev (lstrip (chars_of_string s))))).

(** The closure [cost] that [compile_cost_expr] returns; it captures the
    compiled code object, which is the checked tree. *)
Inductive cost_fn : Type :=
  | Cost (code : node).

(** The text that is parsed: [None] and blank input stand for ["1.0"]. *)
Definition expr_text (expr : option string) : string :=
  let expr := match expr with None => ""%string | Some e => e end in
  let expr := strip expr in
  if String.eqb expr "" then "1.0"%string else expr.

Definition compile_cost_expr (expr : option string) : result cost_fn :=
  let expr := expr_text expr in
  node ← ast_parse expr;
  _ ← for_each (fun _ n => check_node n) (ast_walk node) ();
  let code := node in
  Ok (Cost code).

(** *** Evaluation of the compiled code *)

Definition value_of_constant (c : constant) : value :=
  match c with
  | CInt n => VInt n
  | CFloat x => VFloat x
  | CStr s => VStr s
  | CBool b => VBool b
  | CNone => VNone
  end.

(** Numbers: [bool] is a subclass of [int]. *)
Inductive num : Type :=
  | NInt (n : Z)
  | NFloat (x : float).

Definition as_num (v : value) : option num :=
  match v with
  | VInt n => Some (NInt n)
  | VBool b => Some (NInt (if b then 1 else 0))
  | VFloat x => Some (NFloat x)
  | _ => None
  end.

Definition num_to_float (a : num) : result float :=
  match a with
  | NInt n => int_to_float n
  | NFloat x => Ok x
  end.

(** [a / b] on ints: the exact quotient, correctly rounded. *)
Definition int_true_div (a b : Z) : result float :=
  if b =? 0 then Raise ZeroDivisionError
  else
    let neg := xorb (a <? 0) (b <? 0) in
    match Z.abs a with
    | Zpos p =>
        let q := SF2Prim (SFdiv prec emax (S754_finite neg p 0)
                            (S754_finite false (Z.to_pos (Z.abs b)) 0)) in
        if is_infinity q then Raise OverflowError else Ok q
    | _ => Ok (if neg then (-0)%float else 0%float)
    end.

Definition int_binop (op : kind) (a b : Z) : result value :=
  match op with
  | Add => Ok (VInt (a + b))
  | Sub => Ok (VInt (a - b))
  | Mult => Ok (VInt (a * b))
  | Div => x ← int_true_div a b; Ok (VFloat x)
  | Mod => if b =? 0 then Raise ZeroDivisionError else Ok (VInt (a mod b))
  | Pow =>
      if 0 <=? b then Ok (VInt (a ^ b))
      else if a =? 0 then Raise ZeroDivisionError
      else OutsideModel
  | _ => OutsideModel
  end.

Definition float_binop (op : kind) (a b : float) : result value :=
  match op with
  | Add => Ok (VFloat (a + b))
  | Sub => Ok (VFloat (a - b))
  | Mult => Ok (VFloat (a * b))
  | Div => if (b =? 0)%float then Raise ZeroDivisionError else Ok (VFloat (a / b))
  | Mod => if (b =? 0)%float then Raise ZeroDivisionError else OutsideModel
  | _ => OutsideModel
  end.

Definition is_sequence (v : value) : bool :=
  match v with VStr _ | VTuple _ => true | _ => false end.

Definition binop (op : kind) (a b : value) : result value :=
  match as_num a, as_num b with
  | Some (NInt x), Some (NInt y) => int_binop op x y
  | Some x, Some y =>
      fx ← num_to_float x; fy ← num_to_float y; float_binop op fx fy
  | _, _ =>
      match op, a, b with
      | Add, VStr s, VStr s' => Ok (VStr (s +:+ s'))
      | Add, VTuple l, VTuple l' => Ok (VTuple (l ++ l'))
      | Mult, _, _ =>
          (* repetition of a sequence *)
          match as_num a, as_num b with
          | Some (NInt _), None => if is_sequence b then OutsideModel else Raise TypeError
          | None, Some (NInt _) => if is_sequence a then OutsideModel else Raise TypeError
          | _, _ => Raise TypeError
          end
      | Mod, VStr _, _ => OutsideModel (* string formatting *)
      | (Add | Sub | Div | Mod | Pow), _, _ => Raise TypeError
      | _, _, _ => OutsideModel
      end
  end.

Definition unaryop (op : kind) (a : value) : result value :=
  match op, as_num a with
  | USub, Some (NInt x) => Ok (VInt (- x))
  | USub, Some (NFloat x) => Ok (VFloat (- x))
  | UAdd, Some (NInt x) => Ok (VInt x)
  | UAdd, Some (NFloat x) => Ok (VFloat x)
  | (USub | UAdd), None => Raise TypeError
  | _, _ => OutsideModel
  end.

(** [a < b] on numbers; ints and floats are compared by value. *)
Definition num_lt (a b : num) : result bool :=
  match a, b with
  | NInt x, NInt y => Ok (x <? y)
  | NFloat x, NFloat y => Ok (x <? y)%float
  | NInt x, NFloat y =>
      if Z.abs x <=? 2 ^ 53 then Ok (float_of_Z x <? y)%float else OutsideModel
  | NFloat x, NInt y =>
      if Z.abs y <=? 2 ^ 53 then Ok (x <? float_of_Z y)%float else OutsideModel
  end.

(** [min] and [max] over several numbers: the running best is replaced by an
    item that compares strictly below (above) it. *)
Fixpoint best (want_max : bool) (cur : value) (vs : list value) : result value :=
  match vs with
  | [] => Ok cur
  | v :: vs' =>
      match as_num cur, as_num v with
      | Some c, Some x =>
          better ← (if want_max then num_lt c x else num_lt x c);
          best want_max (if better : bool then v else cur) vs'
      | _, _ => OutsideModel
      end
  end.

Definition min_max (want_max : bool) (args : list value) : result value :=
  match args with
  | [] => Raise TypeError
  | [VTuple []] => Raise ValueError
  | [VTuple (v :: vs)] => best want_max v vs
  | [VStr _] => OutsideModel
  | [_] => Raise TypeError
  | v :: vs => best want_max v vs
  end.

(** Calling an object with positional arguments. *)
Definition call (f : value) (args : list value) : result value :=
  match f with
  | VBuiltin Babs =>
      match args with
      | [a] =>
          match as_num a with
          | Some (NInt x) => Ok (VInt (Z.abs x))
          | Some (NFloat x) => Ok (VFloat (abs x))
          | None => Raise TypeError
          end
      | _ => Raise TypeError
      end
  | VBuiltin Bsqrt =>
      match args with
      | [a] =>
          match as_num a with
          | Some x =>
              fx ← num_to_float x;
              let r := sqrt fx in
              if is_nan r && negb (is_nan fx) then Raise ValueError
              else Ok (VFloat r)
          | None => Raise TypeError
          end
      | _ => Raise TypeError
      end
  | VBuiltin Bmin => min_max false args
  | VBuiltin Bmax => min_max true args
  | VBuiltin _ => OutsideModel (* libm *)
  | _ => Raise TypeError (* not callable *)
  end.

(** [eval(code, {'__builtins__': {}}, local_ns)] on the node classes that the
    whitelist admits; operands and arguments are evaluated left to right. *)
Fixpoint eval (local_ns : Dict.t string value) (n : node) : result value :=
  let eval_all :=
    fix eval_all (l : list node) : result (list value) :=
      match l with
      | [] => Ok []
      | Node Load _ :: l' => eval_all l'
      | Node (keyword _) _ :: _ => OutsideModel
      | x :: l' => v ← eval local_ns x; vs ← eval_all l'; Ok (v :: vs)
      end in
  match n with
  | Node Expression [body] => eval local_ns body
  | Node (Constant c) _ => Ok (value_of_constant c)
  | Node (Name id) _ =>
      match Dict.get local_ns id with
      | Some v => Ok v
      | None => Raise NameError
      end
  | Node BinOp [l; Node op _; r] =>
      a ← eval local_ns l; b ← eval local_ns r; binop op a b
  | Node UnaryOp [Node op _; x] => a ← eval local_ns x; unaryop op a
  | Node Tuple elts => vs ← eval_all elts; Ok (VTuple vs)
  | Node Call (func :: args) =>
      f ← eval local_ns func; vs ← eval_all args; call f vs
  | _ => OutsideModel
  end.

(** [float(val)] *)
Definition to_float (v : value) : result float :=
  match v with
  | VStr _ => OutsideModel (* parses the text *)
  | _ =>
      match as_num v with
      | Some x => num_to_float x
      | None => Raise TypeError
      end
  end.

(** Calling the closure: [cost(f)]. *)
Definition cost (c : cost_fn) (f : float) : result float :=
  let 'Cost code := c in
  let local_ns := [("f"%string, VFloat f)] in
  let local_ns := Dict.update local_ns SAFE_MATH in
  val ← eval local_ns code;
  to_float val.

(** [compile_cost_expr(expr)(f)] *)
Definition run_expr (expr : string) (f : float) : result float :=
  c ← compile_cost_expr (Some expr); cost c f.

(** ** graph_model.py: the network *)

Abbreviation edge := (Z * Z)%type.

(** The attribute dict of an edge; [add_edge] is the only creator of edges
    and sets the three keys. *)
Record edge_data : Type := mk_edge_data {
  func_expr : option string;
  cost_func : cost_fn;
  flow : float
}.

(** [TrafficGraph.G], a [networkx.DiGraph], as its adjacency: node to
    successor to attributes, both levels in insertion order.  The nodes are
    the keys of the outer dict; their positions play no role here. *)
Definition TrafficGraph : Type := Dict.t Z (Dict.t Z edge_data).

(** [G.add_node(n)] *)
Definition G_add_node (g : TrafficGraph) (n : Z) : TrafficGraph :=
  if Dict.contains g n then g else Dict.set g n [].

Definition G_nodes (g : TrafficGraph) : list Z := Dict.keys g.

(** [G.edges()] *)
Definition G_edges (g : TrafficGraph) : list edge :=
  flat_map (fun '(u, nbrs) => map (fun '(v, _) => (u, v)) nbrs) g.

(** [G[u][v]] *)
Definition G_item (g : TrafficGraph) (u v : Z) : result edge_data :=
  nbrs ← Dict.item g u; Dict.item nbrs v.

(** [G[u][v][key] = ...], written as the change [upd] of the attributes. *)
Definition G_setattr (g : TrafficGraph) (u v : Z) (upd : edge_data -> edge_data)
  : result TrafficGraph :=
  nbrs ← Dict.item g u;
  d ← Dict.item nbrs v;
  Ok (Dict.set g u (Dict.set nbrs v (upd d))).

Definition add_node (g : TrafficGraph) (node_id : Z) : TrafficGraph :=
  G_add_node g node_id.

Definition add_edge (g : TrafficGraph) (u v : Z) (func_expr : option string)
  : result unit * TrafficGraph :=
  match compile_cost_expr func_expr with
  | Ok cost_func =>
      let g := G_add_node (G_add_node g u) v in
      let nbrs := default [] (Dict.get g u) in
      (Ok (), Dict.set g u (Dict.set nbrs v (mk_edge_data func_expr cost_func 0)))
  | Raise e => (Raise e, g)
  | OutsideModel => (OutsideModel, g)
  end.

Definition set_edge_expr (g : TrafficGraph) (u v : Z) (expr : option string)
  : result unit * TrafficGraph :=
  match compile_cost_expr expr with
  | Ok compiled =>
      match G_setattr g u v (fun d => mk_edge_data expr (cost_func d) (flow d))
      with
      | Ok g1 =>
          match G_setattr g1 u v (fun d => mk_edge_data (func_expr d) compiled (flow d))
          with
          | Ok g2 => (Ok (), g2)
          | Raise e => (Raise e, g1)
          | OutsideModel => (OutsideModel, g1)
          end
      | Raise e => (Raise e, g)
      | OutsideModel => (OutsideModel, g)
      end
  | Raise e => (Raise e, g)
  | OutsideModel => (OutsideModel, g)
  end.

Definition set_flow (g : TrafficGraph) (u v : Z) (x : float)
  : result TrafficGraph :=
  G_setattr g u v (fun d => mk_edge_data (func_expr d) (cost_func d) x).

Definition get_flow (g : TrafficGraph) (u v : Z) : result float :=
  d ← G_item g u v; Ok (flow d).

Definition get_cost (g : TrafficGraph) (u v : Z) (flow_arg : option float)
  : result float :=
  flow_val ← match flow_arg with
             | None => get_flow g u v
             | Some x => Ok x
             end;
  d ← G_item g u v;
  cost (cost_func d) flow_val.

Definition reset_flows (g : TrafficGraph) : TrafficGraph :=
  map (fun '(u, nbrs) =>
         (u, map (fun '(v, d) => (v, mk_edge_data (func_expr d) (cost_func d) 0))
               nbrs)) g.

(** ** What the solver takes from numpy and networkx *)

(** Arrays of float64. *)
Abbreviation vec := (list float).

Definition zeros (m : nat) : vec := replicate m 0%float.
Definition vadd (a b : vec) : vec := zip_with PrimFloat.add a b.
Definition vsub (a b : vec) : vec := zip_with PrimFloat.sub a b.
Definition vscale (s : float) (a : vec) : vec := map (PrimFloat.mul s) a.

(** [a[i]] and [a[i] = x] *)
Definition getitem {A} (a : list A) (i : nat) : result A :=
  match a !! i with Some x => Ok x | None => Raise IndexError end.
Definition setitem {A} (a : list A) (i : nat) (x : A) : result (list A) :=
  if (i <? length a)%nat then Ok (<[i:=x]> a) else Raise IndexError.

(** [enumerate(l)] *)
Definition enumerate {A} (l : list A) : list (nat * A) := imap (fun i x => (i, x)) l.

(** The auxiliary [nx.DiGraph] with a [weight] on every edge: successor and
    predecessor adjacency, both in insertion order. *)
Record wdigraph : Type := mk_wdigraph {
  succ : Dict.t Z (Dict.t Z float);
  pred : Dict.t Z (Dict.t Z float)
}.

Definition nx_empty : wdigraph := mk_wdigraph [] [].

Definition adj_add_node (a : Dict.t Z (Dict.t Z float)) (n : Z) :=
  if Dict.contains a n then a else Dict.set a n [].

(** [H.add_edge(u, v, weight=w)] *)
Definition nx_add_edge (H : wdigraph) (u v : Z) (w : float) : wdigraph :=
  let s := adj_add_node (adj_add_node (succ H) u) v in
  let p := adj_add_node (adj_add_node (pred H) u) v in
  mk_wdigraph (Dict.set s u (Dict.set (default [] (Dict.get s u)) v w))
              (Dict.set p v (Dict.set (default [] (Dict.get p v)) u w)).

Definition nx_nodes (H : wdigraph) : list Z := Dict.keys (succ H).

Definition nx_weight (H : wdigraph) (a b : Z) : option float :=
  nbrs ← Dict.get (succ H) a; Dict.get nbrs b.

(** [zip(path[:-1], path[1:])] *)
Definition path_edges (path : list Z) : list edge :=
  zip (removelast path) (tail path).

(** ** algorithms.py *)

Abbreviation demand := (Z * Z * float)%type.

Section Solver.
(** [np.dot] on two float64 vectors; the order in which BLAS adds the
    products is not fixed by numpy. *)
Variable np_dot : vec -> vec -> float.
(** [nx.shortest_path(H, o, d, weight='weight')] *)
Variable nx_shortest_path : wdigraph -> Z -> Z -> result (list Z).
(** The builtin [sum] over floats, whose summation method depends on the
    interpreter version. *)
Variable py_sum : list float -> float.

(** [np.linalg.norm(d)] of a real vector is [sqrt(d.dot(d))]. *)
Definition np_linalg_norm (d : vec) : float := sqrt (np_dot d d).

(** [{e:i for i,e in enumerate(edges)}] *)
Definition make_edge_index (edges : list edge) : Dict.t edge nat :=
  fold_left (fun d '(i, e) => Dict.set d e i) (enumerate edges) [].

Section Run.
(** What the closures [costs_at], [aon] and [objective] capture: the
    graph object, whose state is read when they run, the edge list taken
    at the start of the call, the demands and the tolerance. *)
Variable tgraph : TrafficGraph.
Variable edges : list edge.
Variable demands : list demand.
Variable tol : float.

Let m : nat := length edges.
Let edge_index : Dict.t edge nat := make_edge_index edges.

Definition costs_at (fvec : vec) : result vec :=
  for_each (fun c '((u, v), idx) =>
              x ← getitem fvec idx;
              y ← get_cost tgraph u v (Some x);
              setitem c idx y)
           edge_index (zeros m).

(** The graph [H] that [aon] builds from the edge list and the costs. *)
Definition aon_graph (costs : vec) : result wdigraph :=
  for_each (fun H '(idx, (u, v)) =>
              w ← getitem costs idx; Ok (nx_add_edge H u v w))
           (enumerate edges) nx_empty.

(** The loop [for a,b in ...: y[edge_index[(a,b)]] += D] inside the
    [try]: a failing lookup ends the loop and the bare [except] keeps
    what was added so far. *)
Fixpoint add_along (D : float) (pairs : list edge) (y : vec) : vec :=
  match pairs with
  | [] => y
  | e :: pairs' =>
      match Dict.get edge_index e with
      | Some i =>
          match y !! i with
          | Some x => add_along D pairs' (<[i:=(x + D)%float]> y)
          | None => y
          end
      | None => y
      end
  end.

Definition aon_demand (H : wdigraph) (y : vec) (dm : demand) : result vec :=
  let '(o, d, D) := dm in
  match nx_shortest_path H o d with
  | Ok path => Ok (add_along D (path_edges path) y)
  | Raise _ => Ok y
  | OutsideModel => OutsideModel
  end.

Definition aon (costs : vec) : result vec :=
  H ← aon_graph costs;
  for_each (aon_demand H) demands (zeros m).

Definition objective (f d : vec) (alpha : float) : result float :=
  let trial := vadd f (vscale alpha d) in
  cost_trial ← costs_at trial;
  Ok (np_dot cost_trial trial).

Definition phi : float := ((sqrt 5 - 1) / 2)%float.

(** One pass of the golden-section loop on the bracket [(a, b)]. *)
Definition golden_round (f d : vec) (ab : float * float) (_ : nat)
  : result (float * float) :=
  let '(a, b) := ab in
  let c1 := (b - phi * (b - a))%float in
  let c2 := (a + phi * (b - a))%float in
  o1 ← objective f d c1;
  o2 ← objective f d c2;
  if (o1 <? o2)%float then Ok (a, c2) else Ok (c1, b).

Definition line_search (f d : vec) : result float :=
  '(a, b) ← for_each (golden_round f d) (seq 0 20) (0%float, 1%float);
  Ok ((a + b) / 2)%float.

(** [for _ in range(max_iter): ...] with its [break]. *)
Fixpoint fw_loop (max_iter : nat) (f : vec) : result vec :=
  match max_iter with
  | O => Ok f
  | S rest =>
      c ← costs_at f;
      y ← aon c;
      let d := vsub y f in
      if (np_linalg_norm d <? tol)%float then Ok f
      else
        alpha ← line_search f d;
        fw_loop rest (vadd f (vscale alpha d))
  end.

(** Everything between [reset_flows] and the final write-back. *)
Definition fw_iterate (max_iter : nat) : result vec :=
  c0 ← costs_at (zeros m);
  f ← aon c0;
  fw_loop max_iter f.
End Run.

(** [for (u,v),idx in edge_index.items(): tgraph.set_flow(u,v,float(f[idx]))] *)
Fixpoint write_flows (g : TrafficGraph) (items : list (edge * nat)) (f : vec)
  : result unit * TrafficGraph :=
  match items with
  | [] => (Ok (), g)
  | ((u, v), idx) :: items' =>
      match x ← getitem f idx; set_flow g u v x with
      | Ok g' => write_flows g' items' f
      | Raise e => (Raise e, g)
      | OutsideModel => (OutsideModel, g)
      end
  end.

(** [{(u,v):float(G[u][v]['flow']) for (u,v) in edges}] *)
Definition flows_of (g : TrafficGraph) (edges : list edge)
  : result (Dict.t edge float) :=
  for_each (fun acc '(u, v) => x ← get_flow g u v; Ok (Dict.set acc (u, v) x))
           edges [].

Definition frank_wolfe_assignment (tgraph : TrafficGraph)
    (demands : list demand) (max_iter : nat) (tol : float)
  : result (Dict.t edge float) * TrafficGraph :=
  let edges := G_edges tgraph in
  let edge_index := make_edge_index edges in
  let tgraph := reset_flows tgraph in
  match fw_iterate tgraph edges demands tol max_iter with
  | Ok f =>
      match write_flows tgraph edge_index f with
      | (Ok _, tgraph) => (flows_of tgraph edges, tgraph)
      | (Raise e, tgraph) => (Raise e, tgraph)
      | (OutsideModel, tgraph) => (OutsideModel, tgraph)
      end
  | Raise e => (Raise e, tgraph)
  | OutsideModel => (OutsideModel, tgraph)
  end.

(** The graph [H] of [compute_od_travel_times]: every edge weighted by its
    cost at its stored flow. *)
Definition travel_graph (tgraph : TrafficGraph) : result wdigraph :=
  for_each (fun H '(u, v) =>
              d ← G_item tgraph u v;
              c ← get_cost tgraph u v (Some (flow d));
              Ok (nx_add_edge H u v c))
           (G_edges tgraph) nx_empty.

(** The body of the [try] for one OD pair. *)
Definition od_total_cost (tgraph : TrafficGraph) (H : wdigraph) (o d : Z)
  : result float :=
  path ← nx_shortest_path H o d;
  cs ← for_each (fun acc '(a, b) =>
                   e ← G_item tgraph a b;
                   c ← get_cost tgraph a b (Some (flow e));
                   Ok (acc ++ [c]))
                (path_edges path) [];
  Ok (py_sum cs).

(** The result maps an OD pair to its travel time, or to [None] (Python's
    [None]) when the [try] failed.  An empty sum, Python's int [0], is the
    float [py_sum []]. *)
Definition compute_od_travel_times (tgraph : TrafficGraph)
    (demands : list demand) : result (Dict.t (Z * Z) (option float)) :=
  H ← travel_graph tgraph;
  for_each (fun od_costs '(o, d, _) =>
              match od_total_cost tgraph H o d with
              | Ok total_cost => Ok (Dict.set od_costs (o, d) (Some total_cost))
              | Raise _ => Ok (Dict.set od_costs (o, d) None)
              | OutsideModel => OutsideModel
              end)
           demands [].
End Solver.

(** ** Stand-ins for the library functions, for running the model *)

(** Products added from left to right. *)
Definition dot_seq (a b : vec) : float :=
  fold_left (fun acc '(x, y) => (acc + x * y)%float) (zip a b) 0%float.

Definition sum_seq (l : list float) : float := fold_left PrimFloat.add l 0%float.

(** The simple paths from [cur] to [d] that avoid [visited], each with its
    weight added up from the source. *)
Fixpoint simple_paths (fuel : nat) (H : wdigraph) (d : Z) (visited : list Z)
    (cur : Z) (acc : float) : list (list Z * float) :=
  match fuel with
  | O => []
  | S fuel' =>
      if decide (cur = d) then [([d], acc)]
      else
        flat_map
          (fun '(nb, w) =>
             if bool_decide (nb ∈ visited) then []
             else map (fun '(p, c) => (cur :: p, c))
                    (simple_paths fuel' H d (nb :: visited) nb (acc + w)%float))
          (default [] (Dict.get (succ H) cur))
  end.

Fixpoint lightest (cur : list Z * float) (l : list (list Z * float)) : list Z :=
  match l with
  | [] => fst cur
  | x :: l' => lightest (if (snd x <? snd cur)%float then x else cur) l'
  end.

(** A shortest-path oracle by exhaustive search, raising as networkx does.
    It stands in for [nx.shortest_path] where a run needs a concrete one. *)
Definition search_shortest_path (H : wdigraph) (o d : Z) : result (list Z) :=
  if negb (bool_decide (o ∈ nx_nodes H)) || negb (bool_decide (d ∈ nx_nodes H))
  then Raise NodeNotFound
  else
    match simple_paths (length (nx_nodes H)) H d [o] o 0%float with
    | [] => Raise NetworkXNoPath
    | x :: l => Ok (lightest x l)
    end.

(** ** Notions used to state the properties *)


(** A node that the loop over [ast.walk] rejects, and the message it is
    rejected with. *)
Definition offending (n : node) : bool :=
  negb (allowed_nodes (node_kind n))
  || match node_kind n with Name id => negb (known_name id) | _ => false end.

Definition rejection_message (n : node) : string :=
  if negb (allowed_nodes (node_kind n))
  then ("Disallowed expression element: " +:+ type_name (node_kind n))%string
  else match node_kind n with
       | Name id => ("Unknown name: " +:+ id)%string
       | _ => ""%string
       end.


(** The arguments of a call and the elements of a tuple, as [eval] evaluates
    them. *)
Definition eval_all (local_ns : Dict.t string value)
  : list node -> result (list value) :=
  fix eval_all (l : list node) : result (list value) :=
    match l with
    | [] => Ok []
    | Node Load _ :: l' => eval_all l'
    | Node (keyword _) _ :: _ => OutsideModel
    | x :: l' => v ← eval local_ns x; vs ← eval_all l'; Ok (v :: vs)
    end.

(** The network without its flows: nodes, edges, expression texts and
    compiled cost functions, in the graph's order. *)
Definition network_of (g : TrafficGraph)
  : list (Z * list (Z * (option string * cost_fn))) :=
  map (fun '(u, nbrs) =>
         (u, map (fun '(v, d) => (v, (func_expr d, cost_func d))) nbrs)) g.

(** What networkx maintains for a graph: every node is listed once, every
    successor of a node once, and every successor is itself a node. *)
Definition wf_graph (g : TrafficGraph) : Prop :=
  NoDup (Dict.keys g)
  /\ Forall (fun '(u, nbrs) =>
               NoDup (Dict.keys nbrs)
               /\ Forall (fun v => v ∈ Dict.keys g) (Dict.keys nbrs)) g.

(** What a call of [frank_wolfe_assignment] on [g] does to the flows. *)
Definition solver_run_spec (np_dot : vec -> vec -> float)
    (nx_shortest_path : wdigraph -> Z -> Z -> result (list Z))
    (g : TrafficGraph) (demands : list demand) (max_iter : nat) (tol : float)
  : Prop :=
  let edges := G_edges g in
  let g0 := reset_flows g in
  let solve := frank_wolfe_assignment np_dot nx_shortest_path in
  let iterate := fw_iterate np_dot nx_shortest_path g0 edges demands tol max_iter in
  (* every stored flow is reset to 0, and the flows that the caller left in
     the graph do not matter *)
  (forall u v, (u, v) ∈ edges -> get_flow g0 u v = Ok 0%float)
  /\ solve g0 demands max_iter tol = solve g demands max_iter tol
  (* the iterate starts from the all-or-nothing assignment at zero flow *)
  /\ iterate
     = (c0 ← costs_at g0 edges (zeros (length edges));
        f0 ← aon nx_shortest_path edges demands c0;
        fw_loop np_dot nx_shortest_path g0 edges demands tol max_iter f0)
  (* when the loop ends with the vector [fin], every edge's flow is
     overwritten with its component and the returned mapping holds it *)
  /\ match iterate with
     | Ok fin =>
         exists ret g',
           solve g demands max_iter tol = (Ok ret, g')
           /\ network_of g' = network_of g
           /\ Dict.keys ret = edges
           /\ forall i u v, edges !! i = Some (u, v) ->
                exists x, fin !! i = Some x
                  /\ get_flow g' u v = Ok x
                  /\ Dict.get ret (u, v) = Some x
     | Raise e => solve g demands max_iter tol = (Raise e, g0)
     | OutsideModel => solve g demands max_iter tol = (OutsideModel, g0)
     end.

(** *** The line search, after the specification's words

    "The search narrows the bracket using the golden ratio for a fixed
    number of refinement rounds (no early-exit tolerance on the search
    itself), then returns the bracket midpoint as α", for an objective that
    is a total function of the step size. *)
Definition spec_narrow (obj : float -> float) (ab : float * float)
  : float * float :=
  let '(a, b) := ab in
  let c1 := (b - phi * (b - a))%float in
  let c2 := (a + phi * (b - a))%float in
  if (obj c1 <? obj c2)%float then (a, c2) else (c1, b).

Fixpoint spec_bracket (obj : float -> float) (rounds : nat)
    (ab : float * float) : float * float :=
  match rounds with
  | O => ab
  | S r => spec_bracket obj r (spec_narrow obj ab)
  end.


(** *** Paths, and what networkx documents for [shortest_path] *)

(** The nodes that occur in an edge list. *)
Definition endpoints (edges : list edge) : list Z :=
  flat_map (fun '(u, v) => [u; v]) edges.

(** [p] leads from [o] to [d] along edges of the list. *)
Definition is_path (edges : list edge) (o d : Z) (p : list Z) : Prop :=
  head p = Some o /\ last p = Some d
  /\ Forall (fun e => e ∈ edges) (path_edges p)
  /\ Forall (fun x => x ∈ endpoints edges) p.

Definition has_path (edges : list edge) (o d : Z) : Prop :=
  exists p, is_path edges o d p.

(** The same on a weighted graph. *)
Definition nx_path (H : wdigraph) (o d : Z) (p : list Z) : Prop :=
  head p = Some o /\ last p = Some d
  /\ Forall (fun '(a, b) => is_Some (nx_weight H a b)) (path_edges p)
  /\ Forall (fun x => x ∈ nx_nodes H) p.

Definition nx_has_path (H : wdigraph) (o d : Z) : Prop :=
  exists p, nx_path H o d p.

(** The weight of a path, added up from its first edge. *)
Definition path_weight (H : wdigraph) (p : list Z) : float :=
  fold_left (fun acc '(a, b) => (acc + default 0 (nx_weight H a b))%float)
    (path_edges p) 0%float.

Definition nx_nonneg_weights (H : wdigraph) : Prop :=
  forall a b w, nx_weight H a b = Some w -> nonneg w.

(** The documented behaviour of [nx.shortest_path(H, o, d, weight=...)] on
    one query.  It raises [NodeNotFound] when an end is not in [H].  When
    [d] cannot be reached it raises ([NetworkXNoPath]; Dijkstra's search may
    stop earlier with [ValueError] on a negative weight).  A path that it
    returns leads from [o] to [d]; with weights that are not negative it
    finds one whenever there is a path, and the path is simple and of least
    total weight.  The total weight is taken as [path_weight], the float sum
    along the path; the library adds the same weights in the order of its
    search. *)
Record shortest_path_contract
    (nx_shortest_path : wdigraph -> Z -> Z -> result (list Z))
    (H : wdigraph) (o d : Z) : Prop := {
  sp_node_not_found :
    o ∉ nx_nodes H \/ d ∉ nx_nodes H ->
    nx_shortest_path H o d = Raise NodeNotFound;
  sp_no_path :
    o ∈ nx_nodes H -> d ∈ nx_nodes H -> ~ nx_has_path H o d ->
    exists e, nx_shortest_path H o d = Raise e;
  sp_finds :
    nx_nonneg_weights H -> nx_has_path H o d ->
    exists p, nx_shortest_path H o d = Ok p;
  sp_shortest :
    forall p, nx_shortest_path H o d = Ok p ->
      nx_path H o d p
      /\ (nx_nonneg_weights H ->
          NoDup p
          /\ forall p', nx_path H o d p' ->
               (path_weight H p <=? path_weight H p')%float = true)
}.

(** The graph obtained by adding weighted edges one after the other. *)
Definition nx_add_edges (H : wdigraph) (es : list (edge * float)) : wdigraph :=
  fold_left (fun H '((u, v), w) => nx_add_edge H u v w) es H.

(** Non-negative numbers in the specification's representation of floats. *)
Definition sf_nonneg (s : spec_float) : bool :=
  match s with
  | S754_zero _ => true
  | S754_infinity sg => negb sg
  | S754_nan => false
  | S754_finite sg _ _ => negb sg
  end.

(** *** What [aon] computes *)




(** ** Example networks *)

(** The graph with the given edges, added one after the other. *)
Definition build_graph (es : list (Z * Z * string)) : TrafficGraph :=
  fold_left (fun g '(u, v, e) => snd (add_edge g u v (Some e))) es [].

(** One edge [1 -> 2] of cost ["5"]. *)
Definition one_edge_net : TrafficGraph :=
  Eval vm_compute in build_graph [(1, 2, "5"%string)].

(** The same network after a run that left flow 7 on its edge. *)
Definition one_edge_net_used : TrafficGraph :=
  Eval vm_compute in
    match set_flow one_edge_net 1 2 7 with Ok g => g | _ => [] end.

(** Edges [1 -> 2] and [1 -> 3], both of cost ["5"]: nothing leads from 2
    to 3. *)
Definition fork_net : TrafficGraph :=
  Eval vm_compute in build_graph [(1, 2, "5"%string); (1, 3, "5"%string)].

(** A direct edge [1 -> 2] whose cost is its flow, and a detour over 3 of
    cost 1 per edge. *)
Definition detour_net : TrafficGraph :=
  Eval vm_compute in
    build_graph [(1, 2, "f"%string); (1, 3, "1"%string); (3, 2, "1"%string)].



(** What it means that the two entry points tolerate the demand [(o, d, q)]:
    in [aon], on the graph [Ha] built from the costs, it leaves the vector
    as it is, so that it adds nothing alone or among other demands; in
    [compute_od_travel_times] the pair is mapped to [None]. *)
Definition demand_is_skipped
    (nx_shortest_path : wdigraph -> Z -> Z -> result (list Z))
    (py_sum : list float -> float)
    (g : TrafficGraph) (demands : list demand) (costs : vec) (Ha : wdigraph)
    (o d : Z) (q : float) : Prop :=
  (forall y, aon_demand nx_shortest_path (G_edges g) Ha y (o, d, q) = Ok y)
  /\ aon nx_shortest_path (G_edges g) [(o, d, q)] costs
     = Ok (zeros (length (G_edges g)))
  /\ (forall ds1 ds2,
        aon nx_shortest_path (G_edges g) (ds1 ++ (o, d, q) :: ds2) costs
        = aon nx_shortest_path (G_edges g) (ds1 ++ ds2) costs)
  /\ compute_od_travel_times nx_shortest_path py_sum g [(o, d, q)]
     = Ok [((o, d), None)]
  /\ (forall m, (o, d, q) ∈ demands ->
        compute_od_travel_times nx_shortest_path py_sum g demands = Ok m ->
        Dict.get m (o, d) = Some None).

(** The weighted graphs of the examples. *)
Definition one_edge_H : wdigraph :=
  nx_add_edges nx_empty (zip [(1, 2)] [5%float]).

Definition fork_H : wdigraph :=
  nx_add_edges nx_empty (zip [(1, 2); (1, 3)] [5%float; 5%float]).

(** ** graph_model.py and networkx: removing nodes and edges *)

(** [del d[k]] *)
Fixpoint dict_delete {K V} `{EqDecision K} (d : Dict.t K V) (k : K)
  : Dict.t K V :=
  match d with
  | [] => []
  | (k', v) :: d' =>
      if decide (k' = k) then dict_delete d' k else (k', v) :: dict_delete d' k
  end.

(** The outcome of a graph operation that can raise [networkx.NetworkXError]. *)
Inductive nx_result (A : Type) : Type :=
  | NxOk (a : A)
  | NetworkXError.
Arguments NxOk {A} a.
Arguments NetworkXError {A}.

(** [G.has_node(n)] and [G.has_edge(u, v)] *)
Definition G_has_node (g : TrafficGraph) (n : Z) : bool := Dict.contains g n.

Definition G_has_edge (g : TrafficGraph) (u v : Z) : bool :=
  match Dict.get g u with
  | Some nbrs => Dict.contains nbrs v
  | None => false
  end.

(** [G.remove_edge(u, v)]: the entry of [v] is deleted from the successors
    of [u]; a missing edge raises. *)
Definition G_remove_edge (g : TrafficGraph) (u v : Z) : nx_result TrafficGraph :=
  match Dict.get g u with
  | Some nbrs =>
      if Dict.contains nbrs v then NxOk (Dict.set g u (dict_delete nbrs v))
      else NetworkXError
  | None => NetworkXError
  end.

(** [G.remove_node(n)]: the node goes with its successor dict, and its entry
    is deleted from the successors of every predecessor; a missing node
    raises. *)
Definition G_remove_node (g : TrafficGraph) (n : Z) : nx_result TrafficGraph :=
  if Dict.contains g n
  then NxOk (map (fun '(u, nbrs) => (u, dict_delete nbrs n)) (dict_delete g n))
  else NetworkXError.

Definition remove_node (g : TrafficGraph) (node_id : Z)
  : nx_result TrafficGraph :=
  G_remove_node g node_id.

(** ** main_window_logic.py: what the window does to the graph *)

Module MainWindow.

(** [MainWindow.add_node]: the new node gets the id
    [max(existing) + 1 if existing else 1].  The result is the id and the
    graph; the scene items of the window are not part of the model. *)
Definition add_node (g : TrafficGraph) : Z * TrafficGraph :=
  let existing := G_nodes g in
  let nid := match existing with
             | [] => 1
             | x :: l => fold_left Z.max l x + 1
             end in
  (nid, add_node g nid).

(** [MainWindow._remove_edge], as far as the graph goes. *)
Definition _remove_edge (g : TrafficGraph) (u v : Z) : nx_result TrafficGraph :=
  if G_has_edge g u v then G_remove_edge g u v else NxOk g.

End MainWindow.

(** ** Notions for the further properties *)

(** [P] holds of every bracket that the golden-section loop can reach from
    [(a, b)] in [n] rounds, whichever way the comparisons of the objective
    turn out. *)
Fixpoint all_brackets (P : float -> float -> bool) (n : nat) (a b : float)
  : bool :=
  match n with
  | O => P a b
  | S n' =>
      let c1 := (b - phi * (b - a))%float in
      let c2 := (a + phi * (b - a))%float in
      all_brackets P n' a c2 && all_brackets P n' c1 b
  end.

(** A bracket inside [0, 1] that is narrower than [2^-13] and whose midpoint
    lies strictly between 0 and 1. *)
Definition narrow_bracket (a b : float) : bool :=
  ((0 <=? a) && (a <? b) && (b <=? 1) && (b - a <? 0x1p-13)
   && (0 <? (a + b) / 2) && ((a + b) / 2 <? 1))%float.



(** Edges [1 -> 2] of cost ["5"] and [2 -> 3] of cost ["1/f"]. *)
Definition pole_net : TrafficGraph :=
  Eval vm_compute in build_graph [(1, 2, "5"%string); (2, 3, "1/f"%string)].

(** The part of [wf_graph] about the successor dicts, with the nodes [ks]. *)
Definition wf_entries (ks : list Z) (g : TrafficGraph) : Prop :=
  Forall (fun '(u, nbrs) =>
            NoDup (Dict.keys nbrs)
            /\ Forall (fun v => v ∈ ks) (Dict.keys nbrs)) g.

(** The nodes and, for every node, its successors in order: what the
    invariant depends on. *)
Definition shape (g : TrafficGraph) : list (Z * list Z) :=
  map (fun '(u, nbrs) => (u, Dict.keys nbrs)) g.

(** The step that the line search finds on [detour_net] from the flows
    [10; 0; 0] towards [0; 10; 10]. *)
Definition detour_step_size : float :=
  Eval vm_compute in
    match line_search dot_seq detour_net (G_edges detour_net) [10; 0; 0]%float
            (vsub [0; 10; 10]%float [10; 0; 0]%float) with
    | Ok step => step
    | _ => 0%float
    end.

(** [fork_net] with a node 9 that has no edge. *)
Definition lonely_net : TrafficGraph := Eval vm_compute in add_node fork_net 9.

(** A graph of one node and no edge. *)
Definition single_node_net : TrafficGraph := Eval vm_compute in add_node [] 1.

(** * Properties *)

(** ** Results and loops *)

Lemma bind_Ok {A B} (r : result A) (k : A -> result B) (b : B) :
  r ≫= k = Ok b -> exists a, r = Ok a /\ k a = Ok b.
Proof. destruct r as [a| |]; simpl; intros H; try discriminate; eauto. Qed.


Lemma for_each_app {A S} (body : S -> A -> result S) (xs ys : list A) (s : S) :
  for_each body (xs ++ ys) s = for_each body xs s ≫= for_each body ys.
Proof.
  revert s; induction xs as [|x xs IH]; intros s; simpl; [done|].
  destruct (body s x); simpl; auto.
Qed.

(** ** The tree walk *)



Lemma node_size_eq k c : node_size (Node k c) = S (forest_size c).
Proof. reflexivity. Qed.




(** ** The whitelist check *)

Lemma check_node_spec n :
  check_node n = if offending n
                 then Raise (UnsafeExpression (rejection_message n))
                 else Ok ().
Proof.
  unfold check_node, offending, rejection_message.
  destruct (allowed_nodes (node_kind n)); simpl; [|done].
  by destruct (node_kind n).
Qed.

Lemma check_loop_ok l :
  Forall (fun n => offending n = false) l ->
  for_each (fun _ n => check_node n) l () = Ok ().
Proof.
  induction 1 as [|n l Hn _ IH]; simpl; [done|].
  by rewrite check_node_spec, Hn.
Qed.


(** What [compile_cost_expr] does with a text that parses. *)
Lemma compile_parsed expr tree :
  ast_parse (expr_text expr) = Ok tree ->
  compile_cost_expr expr
  = (_ ← for_each (fun _ n => check_node n) (ast_walk tree) (); Ok (Cost tree)).
Proof. intros H. unfold compile_cost_expr. by rewrite H. Qed.


(** ** Evaluation of compiled code *)

















(** ** The sandbox: main properties *)

(** C2: ["1 + 0.1*f"] compiles and its cost function returns 1.1 (the double
    0x1.199999999999ap+0) at [f = 1]; ["__import__('os')"], ["f.__class__"]
    and ["open('x')"] fail with [UnsafeExpression]; the empty text compiles
    to the same cost function as ["1.0"], which returns 1.0 at every flow. *)
Theorem sandbox_examples :
  (exists c, compile_cost_expr (Some "1 + 0.1*f"%string) = Ok c
             /\ cost c 1 = Ok 0x1.199999999999ap+0%float)
  /\ compile_cost_expr (Some "__import__('os')"%string)
     = Raise (UnsafeExpression "Unknown name: __import__")
  /\ compile_cost_expr (Some "f.__class__"%string)
     = Raise (UnsafeExpression "Disallowed expression element: Attribute")
  /\ compile_cost_expr (Some "open('x')"%string)
     = Raise (UnsafeExpression "Unknown name: open")
  /\ compile_cost_expr (Some ""%string) = compile_cost_expr (Some "1.0"%string)
  /\ (exists c, compile_cost_expr (Some ""%string) = Ok c
                /\ forall x, cost c x = Ok 1%float)
  /\ forall x, run_expr "" x = Ok 1%float /\ run_expr "1.0" x = Ok 1%float.
Proof.
  split.
  { exists (Cost (Node Expression
               [mk_binop (mk_const (CInt 1)) Add
                  (mk_binop (mk_const (CFloat 0x1.999999999999ap-4)) Mult
                     (mk_name "f"))])).
    split; vm_compute; reflexivity. }
  do 4 (split; [vm_compute; reflexivity|]).
  split.
  { exists (Cost (Node Expression [mk_const (CFloat 1)])).
    split; [vm_compute; reflexivity|]. intros x. vm_compute. reflexivity. }
  intros x. split; vm_compute; reflexivity.
Qed.


(** An assignment is not an expression: the parser raises before the
    whitelist is consulted. *)
Example assignment_is_a_syntax_error :
  compile_cost_expr (Some "x = 1"%string) = Raise SyntaxError
  /\ compile_cost_expr (Some "import os"%string) = Raise SyntaxError.
Proof. split; vm_compute; reflexivity. Qed.






(** ** Dictionaries *)

Section DictFacts.
Context {K V : Type} `{EqDecision K}.
Implicit Types (d : Dict.t K V) (k : K) (v : V).

Lemma Dict_get_set_eq d k v : Dict.get (Dict.set d k v) k = Some v.
Proof.
  induction d as [|[k' v'] d IH]; simpl.
  - by rewrite decide_True.
  - destruct (decide (k' = k)); simpl; [by rewrite decide_True|].
    by rewrite decide_False.
Qed.

Lemma Dict_get_set_ne d k k' v :
  k <> k' -> Dict.get (Dict.set d k v) k' = Dict.get d k'.
Proof.
  intros Hne. induction d as [|[k0 v0] d IH]; simpl.
  - by rewrite decide_False.
  - destruct (decide (k0 = k)) as [->|]; simpl.
    + by rewrite !decide_False.
    + by rewrite IH.
Qed.

Lemma Dict_get_Some_elem d k v : Dict.get d k = Some v -> (k, v) ∈ d.
Proof.
  induction d as [|[k' v'] d IH]; simpl; [done|].
  destruct (decide (k' = k)) as [->|]; intros H.
  - injection H as ->. left.
  - right. auto.
Qed.

Lemma Dict_get_None d k : Dict.get d k = None <-> k ∉ Dict.keys d.
Proof.
  unfold Dict.keys. induction d as [|[k' v'] d IH]; simpl.
  - split; [intros _; apply not_elem_of_nil|done].
  - rewrite not_elem_of_cons. destruct (decide (k' = k)) as [->|Hne].
    + split; [done|]. by intros [? _].
    + rewrite IH. split; [|by intros [_ ?]]. intros ?. split; [|done].
      by intros ->.
Qed.

Lemma Dict_get_elem d k v :
  NoDup (Dict.keys d) -> (k, v) ∈ d -> Dict.get d k = Some v.
Proof.
  unfold Dict.keys. induction d as [|[k' v'] d IH]; simpl; intros Hnd Hin.
  - by apply elem_of_nil in Hin.
  - apply NoDup_cons in Hnd as [Hk' Hnd].
    apply elem_of_cons in Hin as [Heq|Hin].
    + injection Heq as -> ->. by rewrite decide_True.
    + rewrite decide_False; [by apply IH|].
      intros ->. apply Hk'. apply list_elem_of_fmap. by exists (k, v).
Qed.

Lemma Dict_keys_set_present d k v :
  k ∈ Dict.keys d -> Dict.keys (Dict.set d k v) = Dict.keys d.
Proof.
  unfold Dict.keys. induction d as [|[k' v'] d IH]; simpl; intros Hin.
  - by apply elem_of_nil in Hin.
  - destruct (decide (k' = k)) as [->|Hne]; simpl; [done|].
    apply elem_of_cons in Hin as [->|Hin]; [done|]. by rewrite IH.
Qed.

Lemma Dict_keys_set_absent d k v :
  k ∉ Dict.keys d -> Dict.keys (Dict.set d k v) = Dict.keys d ++ [k].
Proof.
  unfold Dict.keys. induction d as [|[k' v'] d IH]; simpl; intros Hin; [done|].
  apply not_elem_of_cons in Hin as [Hne Hin].
  rewrite decide_False by done. simpl. by rewrite IH.
Qed.

Lemma Dict_set_absent d k v :
  k ∉ Dict.keys d -> Dict.set d k v = d ++ [(k, v)].
Proof.
  unfold Dict.keys. induction d as [|[k' v'] d IH]; simpl; intros Hin; [done|].
  apply not_elem_of_cons in Hin as [Hne Hin].
  rewrite decide_False by done. by rewrite IH.
Qed.

Lemma Dict_item_Ok d k v : Dict.item d k = Ok v <-> Dict.get d k = Some v.
Proof.
  unfold Dict.item. destruct (Dict.get d k); split; intros H; congruence.
Qed.
End DictFacts.

Lemma Dict_set_map {K V B} `{EqDecision K} (f : K * V -> B)
    (d : Dict.t K V) k v v0 :
  Dict.get d k = Some v0 -> f (k, v) = f (k, v0) ->
  map f (Dict.set d k v) = map f d.
Proof.
  intros Hget Hf. induction d as [|[k' v'] d IH]; simpl in *; [done|].
  destruct (decide (k' = k)) as [->|Hne]; simpl.
  - injection Hget as ->. by rewrite Hf.
  - by rewrite IH.
Qed.

(** ** The network model *)

Lemma G_item_Ok g u v d :
  G_item g u v = Ok d <->
  exists nbrs, Dict.get g u = Some nbrs /\ Dict.get nbrs v = Some d.
Proof.
  unfold G_item, Dict.item. split.
  - intros H. destruct (Dict.get g u) as [nbrs|]; [|done]. simpl in H.
    exists nbrs. split; [done|]. by destruct (Dict.get nbrs v); simplify_eq.
  - intros (nbrs & -> & Hv). simpl. by rewrite Hv.
Qed.

Lemma G_item_result g u v :
  (exists d, G_item g u v = Ok d) \/ G_item g u v = Raise KeyError.
Proof.
  unfold G_item, Dict.item.
  destruct (Dict.get g u) as [nbrs|]; simpl; [|by right].
  destruct (Dict.get nbrs v); [left; eauto|by right].
Qed.

Lemma G_setattr_Ok g u v upd d :
  G_item g u v = Ok d ->
  exists g', G_setattr g u v upd = Ok g'
    /\ G_item g' u v = Ok (upd d)
    /\ forall u' v', (u', v') <> (u, v) -> G_item g' u' v' = G_item g u' v'.
Proof.
  intros (nbrs & Hu & Hv)%G_item_Ok.
  exists (Dict.set g u (Dict.set nbrs v (upd d))).
  split; [|split].
  - unfold G_setattr, Dict.item. rewrite Hu. simpl. by rewrite Hv.
  - apply G_item_Ok. exists (Dict.set nbrs v (upd d)).
    by rewrite !Dict_get_set_eq.
  - intros u' v' Hne. unfold G_item, Dict.item.
    destruct (decide (u = u')) as [<-|Hu'].
    + rewrite Dict_get_set_eq, Hu. simpl.
      rewrite Dict_get_set_ne; [done|]. congruence.
    + by rewrite Dict_get_set_ne.
Qed.

Lemma G_setattr_Raise g u v upd e :
  G_item g u v = Raise e -> G_setattr g u v upd = Raise e.
Proof.
  unfold G_item, G_setattr, Dict.item.
  destruct (Dict.get g u) as [nbrs|]; simpl; [|by intros [= <-]].
  destruct (Dict.get nbrs v); simpl; [done|by intros [= <-]].
Qed.

Lemma G_setattr_inv g u v upd g' :
  G_setattr g u v upd = Ok g' ->
  exists nbrs d, Dict.get g u = Some nbrs /\ Dict.get nbrs v = Some d
    /\ g' = Dict.set g u (Dict.set nbrs v (upd d)).
Proof.
  unfold G_setattr, Dict.item. intros H.
  destruct (Dict.get g u) as [nbrs|]; simpl in H; [|done].
  destruct (Dict.get nbrs v) as [d|] eqn:Hv; simpl in H; [|done].
  exists nbrs, d. by simplify_eq.
Qed.



Lemma G_setattr_network g u v upd g' :
  (forall d, func_expr (upd d) = func_expr d /\ cost_func (upd d) = cost_func d) ->
  G_setattr g u v upd = Ok g' -> network_of g' = network_of g.
Proof.
  intros Hupd (nbrs & d & Hu & Hv & ->)%G_setattr_inv.
  unfold network_of. apply (Dict_set_map _ _ _ _ nbrs); [done|].
  simpl. f_equal. apply (Dict_set_map _ _ _ _ d); [done|].
  destruct (Hupd d) as [-> ->]. done.
Qed.



Lemma G_edges_network g :
  G_edges g
  = flat_map (fun '(u, nbrs) => map (fun '(v, _) => (u, v)) nbrs) (network_of g).
Proof.
  unfold G_edges, network_of. induction g as [|[u nbrs] g IH]; simpl; [done|].
  rewrite IH. f_equal. rewrite map_map. apply map_ext. by intros [v d].
Qed.

Lemma reset_flows_network g :
  reset_flows g
  = map (fun '(u, nbrs) =>
           (u, map (fun '(v, ec) => (v, mk_edge_data (fst ec) (snd ec) 0)) nbrs))
        (network_of g).
Proof.
  unfold reset_flows, network_of. rewrite map_map. apply map_ext.
  intros [u nbrs]. f_equal. rewrite map_map. apply map_ext. by intros [v d].
Qed.

Lemma network_of_reset_flows g : network_of (reset_flows g) = network_of g.
Proof.
  unfold reset_flows, network_of. rewrite map_map. apply map_ext.
  intros [u nbrs]. f_equal. rewrite map_map. apply map_ext. by intros [v d].
Qed.

Lemma G_edges_reset_flows g : G_edges (reset_flows g) = G_edges g.
Proof. by rewrite !G_edges_network, network_of_reset_flows. Qed.

Lemma G_nodes_reset_flows g : G_nodes (reset_flows g) = G_nodes g.
Proof.
  unfold G_nodes, Dict.keys, reset_flows. rewrite map_map. apply map_ext.
  by intros [u nbrs].
Qed.

Lemma G_item_reset_flows g u v :
  G_item (reset_flows g) u v
  = (d ← G_item g u v; Ok (mk_edge_data (func_expr d) (cost_func d) 0)).
Proof.
  unfold G_item, Dict.item, reset_flows.
  induction g as [|[u' nbrs] g IH]; simpl; [done|].
  destruct (decide (u' = u)) as [->|]; simpl; [|done].
  clear IH. induction nbrs as [|[v' d] nbrs IH]; simpl; [done|].
  destruct (decide (v' = v)); simpl; done.
Qed.

Lemma set_flow_network g u v x g' :
  set_flow g u v x = Ok g' -> network_of g' = network_of g.
Proof. apply G_setattr_network. done. Qed.

Lemma write_flows_network g items f :
  network_of (snd (write_flows g items f)) = network_of g.
Proof.
  revert g; induction items as [|[[u v] idx] items IH]; intros g; simpl; [done|].
  destruct (getitem f idx) as [x| |]; simpl; try done.
  destruct (set_flow g u v x) as [g'| |] eqn:Hset; simpl; try done.
  rewrite IH. by eapply set_flow_network.
Qed.

(** ** The solver *)

Section SolverFacts.
Variable np_dot : vec -> vec -> float.
Variable nx_shortest_path : wdigraph -> Z -> Z -> result (list Z).

Abbreviation solve := (frank_wolfe_assignment np_dot nx_shortest_path).

(** The call depends on the graph through its flow-free part only. *)
Lemma frank_wolfe_network g1 g2 demands max_iter tol :
  network_of g1 = network_of g2 ->
  solve g1 demands max_iter tol = solve g2 demands max_iter tol.
Proof.
  intros Hnet. unfold frank_wolfe_assignment.
  by rewrite !G_edges_network, !reset_flows_network, Hnet.
Qed.

Lemma frank_wolfe_keeps_network g demands max_iter tol :
  network_of (snd (solve g demands max_iter tol)) = network_of g.
Proof.
  unfold frank_wolfe_assignment.
  destruct (fw_iterate _ _ _ _ _ _ _) as [f| |]; simpl;
    try apply network_of_reset_flows.
  pose proof (write_flows_network (reset_flows g)
                (make_edge_index (G_edges g)) f) as Hw.
  destruct (write_flows _ _ f) as [[| |] g']; simpl in *;
    by rewrite Hw, network_of_reset_flows.
Qed.

(** C9: the solver is deterministic.  Two graphs that are the same network
    (nodes, edges, expressions and cost functions, whatever flows they hold)
    give, for the same demands, iteration cap and tolerance, the same
    returned mapping and the same final graph; and solving again from the
    graph that a run left behind gives that run's result again. *)
Theorem frank_wolfe_deterministic g1 g2 demands max_iter tol :
  network_of g1 = network_of g2 ->
  solve g1 demands max_iter tol = solve g2 demands max_iter tol
  /\ solve (snd (solve g1 demands max_iter tol)) demands max_iter tol
     = solve g1 demands max_iter tol.
Proof.
  intros Hnet. split; [by apply frank_wolfe_network|].
  apply frank_wolfe_network, frank_wolfe_keeps_network.
Qed.

(** *** Edges and their indices *)

Lemma elem_of_G_edges g u v :
  (u, v) ∈ G_edges g <->
  exists nbrs, (u, nbrs) ∈ g /\ v ∈ Dict.keys nbrs.
Proof.
  unfold G_edges. rewrite list_elem_of_In, in_flat_map. split.
  - intros ([u' nbrs] & Hin & Hv). apply list_elem_of_In in Hin, Hv.
    apply list_elem_of_fmap in Hv as ([v' d] & [= -> ->] & Hv).
    exists nbrs. split; [done|]. apply list_elem_of_fmap. by exists (v', d).
  - intros (nbrs & Hin & Hv). exists (u, nbrs).
    split; [by apply list_elem_of_In|]. apply list_elem_of_In.
    apply list_elem_of_fmap in Hv as ([v' d] & -> & Hv).
    apply list_elem_of_fmap. by exists (v', d).
Qed.

Lemma G_edges_NoDup g :
  NoDup (Dict.keys g) ->
  Forall (fun '(u, nbrs) => NoDup (Dict.keys nbrs)) g ->
  NoDup (G_edges g).
Proof.
  induction g as [|[u nbrs] g IH]; simpl; intros Hk Hin; [constructor|].
  apply NoDup_cons in Hk as [Hu Hk]. apply Forall_cons in Hin as [Hn Hin].
  change (G_edges ((u, nbrs) :: g))
    with (map (fun '(v, _) => (u, v)) nbrs ++ G_edges g).
  apply NoDup_app. split; [|split; [|by apply IH]].
  - assert (map (fun '(v, _) => (u, v)) nbrs
            = map (pair u) (Dict.keys nbrs)) as ->.
    { unfold Dict.keys. rewrite map_map. apply map_ext. by intros [v d]. }
    by apply (NoDup_fmap_2 (pair u)).
  - intros [u' v] Hx Hy. apply list_elem_of_fmap in Hx as ([v' d] & [= -> ->] & _).
    apply elem_of_G_edges in Hy as (nbrs' & Hy & _).
    apply Hu. apply list_elem_of_fmap. by exists (u, nbrs').
Qed.

Lemma G_item_of_edge g u v :
  NoDup (Dict.keys g) -> (u, v) ∈ G_edges g -> exists d, G_item g u v = Ok d.
Proof.
  intros Hk (nbrs & Hin & Hv)%elem_of_G_edges.
  destruct (Dict.get nbrs v) as [d|] eqn:Hd.
  - exists d. apply G_item_Ok. exists nbrs. split; [|done].
    by apply Dict_get_elem.
  - by apply Dict_get_None in Hd.
Qed.

Lemma wf_graph_edges_NoDup g : wf_graph g -> NoDup (G_edges g).
Proof.
  intros [Hk Hin]. apply G_edges_NoDup; [done|].
  eapply Forall_impl; [exact Hin|]. by intros [u nbrs] [? _].
Qed.

Lemma edge_index_fold (l : list edge) (acc : Dict.t edge nat) (n : nat) :
  NoDup (Dict.keys acc ++ l) ->
  fold_left (fun d '(i, e) => Dict.set d e i) (imap (fun i x => ((n + i)%nat, x)) l) acc
  = acc ++ imap (fun i e => (e, (n + i)%nat)) l.
Proof.
  revert acc n; induction l as [|e l IH]; intros acc n Hnd; simpl.
  - by rewrite app_nil_r.
  - rewrite Dict_set_absent.
    2:{ apply NoDup_app in Hnd as (_ & Hdis & _). intros Hin.
        apply (Hdis e Hin). left. }
    rewrite (imap_ext _ (fun i x => ((S n + i)%nat, x)))
      by (intros; simpl; f_equal; lia).
    rewrite IH.
    + rewrite <- app_assoc. simpl. do 2 f_equal.
      apply imap_ext. intros. simpl. f_equal. lia.
    + unfold Dict.keys. rewrite map_app. simpl. rewrite <- app_assoc. done.
Qed.

Lemma make_edge_index_NoDup edges :
  NoDup edges -> make_edge_index edges = imap (fun i e => (e, i)) edges.
Proof.
  intros Hnd. unfold make_edge_index, enumerate.
  exact (edge_index_fold edges [] 0 Hnd).
Qed.

Lemma elem_of_imap_swap (edges : list edge) e i :
  (e, i) ∈ imap (fun i e => (e, i)) edges <-> edges !! i = Some e.
Proof.
  rewrite elem_of_lookup_imap. split.
  - by intros (j & y & [= -> ->] & Hl).
  - intros Hl. by exists i, e.
Qed.

Lemma imap_swap_keys (f : nat -> nat) (l : list edge) :
  map fst (imap (fun i e => (e, f i)) l) = l.
Proof.
  revert f; induction l as [|e l IH]; intros f; simpl; [done|].
  f_equal. apply (IH (f ∘ S)).
Qed.

Lemma edge_index_keys edges :
  NoDup edges -> Dict.keys (make_edge_index edges) = edges.
Proof.
  intros Hnd. rewrite make_edge_index_NoDup by done.
  apply (imap_swap_keys (fun i => i)).
Qed.

Lemma edge_index_get edges e i :
  NoDup edges -> edges !! i = Some e ->
  Dict.get (make_edge_index edges) e = Some i.
Proof.
  intros Hnd Hl. rewrite make_edge_index_NoDup by done.
  apply Dict_get_elem; [|by apply elem_of_imap_swap].
  unfold Dict.keys. by rewrite (imap_swap_keys (fun i => i)).
Qed.

(** *** Lengths *)

Lemma for_each_inv {A S} (P : S -> Prop) (body : S -> A -> result S) xs s s' :
  (forall s x s', P s -> body s x = Ok s' -> P s') ->
  P s -> for_each body xs s = Ok s' -> P s'.
Proof.
  intros Hstep. revert s; induction xs as [|x xs IH]; intros s Hs; simpl.
  - by intros [= <-].
  - intros (s1 & H1 & H2)%bind_Ok. eapply IH; [|done]. by eapply Hstep.
Qed.

Lemma length_zeros n : length (zeros n) = n.
Proof. apply length_replicate. Qed.

Lemma length_vadd a b : length (vadd a b) = (length a `min` length b)%nat.
Proof. apply length_zip_with. Qed.

Lemma length_vsub a b : length (vsub a b) = (length a `min` length b)%nat.
Proof. apply length_zip_with. Qed.

Lemma length_vscale s a : length (vscale s a) = length a.
Proof. apply length_map. Qed.

Lemma length_add_along edges D pairs y :
  length (add_along edges D pairs y) = length y.
Proof.
  revert y; induction pairs as [|e pairs IH]; intros y; simpl; [done|].
  destruct (Dict.get _ e) as [i|]; [|done].
  destruct (y !! i); [|done]. by rewrite IH, length_insert.
Qed.

Lemma aon_demand_length edges H y dm y' :
  aon_demand nx_shortest_path edges H y dm = Ok y' -> length y' = length y.
Proof.
  destruct dm as [[o d] D]. unfold aon_demand.
  destruct (nx_shortest_path H o d); intros [= <-]; [|done].
  apply length_add_along.
Qed.

Lemma aon_length edges demands costs y :
  aon nx_shortest_path edges demands costs = Ok y -> length y = length edges.
Proof.
  unfold aon. intros (H & _ & Hrun)%bind_Ok.
  apply (for_each_inv (fun y => length y = length edges)) in Hrun; [done| |].
  - intros s x s' Hs Hx. by rewrite (aon_demand_length _ _ _ _ _ Hx).
  - apply length_zeros.
Qed.

Lemma fw_loop_length g edges demands tol max_iter f fin :
  length f = length edges ->
  fw_loop np_dot nx_shortest_path g edges demands tol max_iter f = Ok fin ->
  length fin = length edges.
Proof.
  revert f; induction max_iter as [|n IH]; intros f Hf; simpl.
  - by intros [= <-].
  - intros (c & _ & H)%bind_Ok. apply bind_Ok in H as (y & Hy & H).
    destruct (_ <? _)%float; [by injection H as <-|].
    apply bind_Ok in H as (alpha & _ & H). eapply IH; [|done].
    apply aon_length in Hy.
    rewrite length_vadd, length_vscale, length_vsub. lia.
Qed.

Lemma fw_iterate_length g edges demands tol max_iter fin :
  fw_iterate np_dot nx_shortest_path g edges demands tol max_iter = Ok fin ->
  length fin = length edges.
Proof.
  unfold fw_iterate. intros (c0 & _ & H)%bind_Ok.
  apply bind_Ok in H as (f0 & Hf0 & H).
  eapply fw_loop_length; [|done]. by eapply aon_length.
Qed.

(** *** Writing the flows back *)

Lemma set_flow_Ok g u v x d :
  G_item g u v = Ok d ->
  exists g', set_flow g u v x = Ok g'
    /\ G_item g' u v = Ok (mk_edge_data (func_expr d) (cost_func d) x)
    /\ forall u' v', (u', v') <> (u, v) -> G_item g' u' v' = G_item g u' v'.
Proof. apply G_setattr_Ok. Qed.

Lemma write_flows_spec g (items : list (edge * nat)) (f : vec) :
  NoDup (map fst items) ->
  (forall u v i, ((u, v), i) ∈ items ->
     (exists d, G_item g u v = Ok d) /\ (i < length f)%nat) ->
  exists g', write_flows g items f = (Ok (), g')
    /\ (forall u v i, ((u, v), i) ∈ items ->
          exists x, f !! i = Some x /\ get_flow g' u v = Ok x)
    /\ (forall u v, (u, v) ∉ map fst items -> G_item g' u v = G_item g u v).
Proof.
  revert g; induction items as [|[[u v] idx] items IH]; intros g Hnd Hok; simpl.
  - exists g. split; [done|]. split; [|done]. intros ??? Hin.
    by apply elem_of_nil in Hin.
  - simpl in Hnd. apply NoDup_cons in Hnd as [Hhead Hnd].
    destruct (Hok u v idx) as [[d Hd] Hidx]; [left|].
    apply lookup_lt_is_Some in Hidx as [x Hx].
    unfold getitem. rewrite Hx. simpl.
    destruct (set_flow_Ok g u v x d Hd) as (g1 & -> & Hd1 & Hframe1).
    destruct (IH g1 Hnd) as (g' & Hrun & Hset & Hframe).
    { intros u' v' i Hin. destruct (Hok u' v' i) as [[d' Hd'] Hi]; [by right|].
      split; [|done]. exists d'. rewrite Hframe1; [done|].
      intros [= -> ->]. apply Hhead. apply list_elem_of_fmap.
      by exists ((u, v), i). }
    exists g'. split; [done|]. split.
    + intros u' v' i [[= -> -> ->]|Hin]%elem_of_cons; [|by apply Hset].
      exists x. split; [done|]. unfold get_flow. by rewrite Hframe, Hd1.
    + intros u' v' [Hne Hnotin]%not_elem_of_cons.
      rewrite Hframe by done. by apply Hframe1.
Qed.

Lemma flows_of_spec g (edges : list edge) (acc : Dict.t edge float) :
  (forall u v, (u, v) ∈ edges -> exists x, get_flow g u v = Ok x) ->
  exists ret,
    for_each (fun acc '(u, v) => x ← get_flow g u v; Ok (Dict.set acc (u, v) x))
      edges acc = Ok ret
    /\ (forall u v, (u, v) ∈ edges ->
          exists x, get_flow g u v = Ok x /\ Dict.get ret (u, v) = Some x)
    /\ (forall e, e ∉ edges -> Dict.get ret e = Dict.get acc e).
Proof.
  revert acc; induction edges as [|[u v] edges IH]; intros acc Hok; simpl.
  - exists acc. split; [done|]. split; [|done]. intros ?? Hin.
    by apply elem_of_nil in Hin.
  - destruct (Hok u v) as [x Hx]; [left|]. rewrite Hx. simpl.
    destruct (IH (Dict.set acc (u, v) x)) as (ret & Hrun & Hin & Hout).
    { intros u' v' Hin. apply Hok. by right. }
    exists ret. split; [done|]. split.
    + intros u' v' Hin'.
      destruct (decide ((u', v') ∈ edges)) as [He|He]; [by apply Hin|].
      apply elem_of_cons in Hin' as [[= -> ->]|?]; [|done].
      exists x. split; [done|]. by rewrite Hout, Dict_get_set_eq.
    + intros e [Hne Hnotin]%not_elem_of_cons.
      rewrite Hout by done. by apply Dict_get_set_ne.
Qed.

Lemma flows_of_keys g (edges : list edge) (acc ret : Dict.t edge float) :
  NoDup (Dict.keys acc ++ edges) ->
  for_each (fun acc '(u, v) => x ← get_flow g u v; Ok (Dict.set acc (u, v) x))
    edges acc = Ok ret ->
  Dict.keys ret = Dict.keys acc ++ edges.
Proof.
  revert acc; induction edges as [|[u v] edges IH]; intros acc Hnd; simpl.
  - intros [= <-]. by rewrite app_nil_r.
  - intros (acc1 & H1 & Hrun)%bind_Ok.
    apply bind_Ok in H1 as (x & _ & [= <-]).
    assert ((u, v) ∉ Dict.keys acc) as Hfresh.
    { apply NoDup_app in Hnd as (_ & Hdis & _). intros Hin.
      apply (Hdis _ Hin). left. }
    apply IH in Hrun.
    + rewrite Hrun, Dict_keys_set_absent by done. by rewrite <- app_assoc.
    + rewrite Dict_keys_set_absent by done. by rewrite <- app_assoc.
Qed.

(** C5: a call first sets every edge's stored flow to 0, so that the flows
    the caller left in the graph play no part; the iterate is seeded with
    the all-or-nothing assignment at the costs of zero flow; and when the
    loop ends (converged or out of iterations) with the vector [fin], every
    edge's flow is overwritten with its component of [fin] and the returned
    mapping gives every edge that stored flow. *)
Theorem frank_wolfe_resets_and_writes g demands max_iter tol :
  wf_graph g ->
  solver_run_spec np_dot nx_shortest_path g demands max_iter tol.
Proof.
  intros Hwf. pose proof (wf_graph_edges_NoDup g Hwf) as Hnd.
  destruct Hwf as [Hkeys _].
  assert (Hreset : forall u v, (u, v) ∈ G_edges g ->
            exists d, G_item (reset_flows g) u v
                      = Ok (mk_edge_data (func_expr d) (cost_func d) 0)).
  { intros u v Hin. destruct (G_item_of_edge g u v Hkeys Hin) as [d Hd].
    exists d. by rewrite G_item_reset_flows, Hd. }
  unfold solver_run_spec. split; [|split; [|split; [done|]]].
  - intros u v Hin. destruct (Hreset u v Hin) as [d Hd].
    unfold get_flow. by rewrite Hd.
  - apply frank_wolfe_network, network_of_reset_flows.
  - unfold frank_wolfe_assignment.
    destruct (fw_iterate _ _ _ _ _ _ _) as [fin| |] eqn:Hit; [|done|done].
    apply fw_iterate_length in Hit.
    destruct (write_flows_spec (reset_flows g) (make_edge_index (G_edges g)) fin)
      as (g' & Hrun & Hset & _).
    { fold (Dict.keys (make_edge_index (G_edges g))).
      by rewrite edge_index_keys. }
    { intros u v i Hin. rewrite make_edge_index_NoDup in Hin by done.
      apply elem_of_imap_swap in Hin. split.
      - destruct (Hreset u v) as [d Hd]; [|by eexists].
        by eapply list_elem_of_lookup_2.
      - rewrite Hit. by eapply lookup_lt_Some. }
    rewrite Hrun.
    assert (Hflow : forall i u v, G_edges g !! i = Some (u, v) ->
              exists x, fin !! i = Some x /\ get_flow g' u v = Ok x).
    { intros i u v Hl. apply Hset. rewrite make_edge_index_NoDup by done.
      by apply elem_of_imap_swap. }
    destruct (flows_of_spec g' (G_edges g) []) as (ret & Hret & Hin & _).
    { intros u v (i & Hl)%list_elem_of_lookup_1.
      destruct (Hflow i u v Hl) as (x & _ & Hx). by exists x. }
    exists ret, g'. unfold flows_of. rewrite Hret. split; [done|].
    split; [|split].
    + pose proof (write_flows_network (reset_flows g)
                    (make_edge_index (G_edges g)) fin) as Hnet.
      rewrite Hrun in Hnet. simpl in Hnet.
      by rewrite Hnet, network_of_reset_flows.
    + by apply (flows_of_keys g' _ []).
    + intros i u v Hl. destruct (Hflow i u v Hl) as (x & Hx & Hg).
      exists x. split; [done|]. split; [done|].
      destruct (Hin u v) as (x' & Hx' & Hget);
        [by eapply list_elem_of_lookup_2|].
      congruence.
Qed.

(** *** One iteration *)

Lemma golden_rounds_total g edges f d (obj : float -> float) :
  (forall alpha, objective np_dot g edges f d alpha = Ok (obj alpha)) ->
  forall (rounds : list nat) ab,
    for_each (golden_round np_dot g edges f d) rounds ab
    = Ok (spec_bracket obj (length rounds) ab).
Proof.
  intros Hobj. induction rounds as [|r rounds IH]; intros [a b]; simpl; [done|].
  rewrite !Hobj. simpl.
  destruct (_ <? _)%float; simpl; apply IH.
Qed.


(** *** The auxiliary graph *)

Lemma adj_add_node_keys (a : Dict.t Z (Dict.t Z float)) n x :
  x ∈ Dict.keys (adj_add_node a n) <-> x ∈ Dict.keys a \/ x = n.
Proof.
  unfold adj_add_node, Dict.contains.
  destruct (Dict.get a n) as [nb|] eqn:Hn.
  - split; [by left|]. intros [?| ->]; [done|].
    destruct (decide (n ∈ Dict.keys a)) as [|Hno]; [done|].
    apply Dict_get_None in Hno. congruence.
  - apply Dict_get_None in Hn. rewrite Dict_keys_set_absent by done.
    rewrite elem_of_app, list_elem_of_singleton. done.
Qed.

Lemma adj_add_node_lookup (a : Dict.t Z (Dict.t Z float)) n x b :
  (nb ← Dict.get (adj_add_node a n) x; Dict.get nb b)
  = (nb ← Dict.get a x; Dict.get nb b).
Proof.
  unfold adj_add_node, Dict.contains.
  destruct (Dict.get a n) as [nb|] eqn:Hn; [done|].
  destruct (decide (n = x)) as [->|Hne].
  - by rewrite Dict_get_set_eq, Hn.
  - by rewrite Dict_get_set_ne.
Qed.

Lemma adj_add_node_default (a : Dict.t Z (Dict.t Z float)) n x :
  default [] (Dict.get (adj_add_node a n) x) = default [] (Dict.get a x).
Proof.
  unfold adj_add_node, Dict.contains.
  destruct (Dict.get a n) as [nb|] eqn:Hn; [done|].
  destruct (decide (n = x)) as [->|Hne].
  - by rewrite Dict_get_set_eq, Hn.
  - by rewrite Dict_get_set_ne.
Qed.

Lemma nx_weight_add_edge H u v w a b :
  nx_weight (nx_add_edge H u v w) a b
  = if decide ((a, b) = (u, v)) then Some w else nx_weight H a b.
Proof.
  unfold nx_weight, nx_add_edge. simpl.
  destruct (decide (u = a)) as [->|Hu].
  - rewrite Dict_get_set_eq. simpl.
    destruct (decide (v = b)) as [->|Hv].
    + rewrite Dict_get_set_eq. by rewrite decide_True.
    + rewrite Dict_get_set_ne by done. rewrite decide_False by congruence.
      rewrite !adj_add_node_default.
      by destruct (Dict.get (succ H) a).
  - rewrite Dict_get_set_ne by done. rewrite decide_False by congruence.
    by rewrite !adj_add_node_lookup.
Qed.

Lemma nx_nodes_add_edge H u v w x :
  x ∈ nx_nodes (nx_add_edge H u v w) <-> x ∈ nx_nodes H \/ x = u \/ x = v.
Proof.
  unfold nx_nodes, nx_add_edge. simpl.
  rewrite Dict_keys_set_present.
  - rewrite !adj_add_node_keys. tauto.
  - rewrite !adj_add_node_keys. tauto.
Qed.

Lemma nx_nodes_add_edges es H x :
  x ∈ nx_nodes (nx_add_edges H es) <->
  x ∈ nx_nodes H \/ x ∈ endpoints (map fst es).
Proof.
  unfold nx_add_edges. revert H; induction es as [|[[u v] w] es IH]; intros H; simpl.
  - split; [by left|]. intros [?|Hin]; [done|]. by apply elem_of_nil in Hin.
  - rewrite IH, nx_nodes_add_edge, !elem_of_cons. tauto.
Qed.


Lemma nx_weight_add_edges_is_Some es H a b :
  is_Some (nx_weight (nx_add_edges H es) a b) <->
  is_Some (nx_weight H a b) \/ (a, b) ∈ map fst es.
Proof.
  unfold nx_add_edges. revert H; induction es as [|[[u v] w'] es IH]; intros H; simpl.
  - split; [by left|]. intros [?|Hin]; [done|]. by apply elem_of_nil in Hin.
  - rewrite IH, nx_weight_add_edge, elem_of_cons.
    destruct (decide ((a, b) = (u, v))) as [->|Hne].
    + split; [intros _; right; by left|]. intros _. left. by eexists.
    + split; [intros [?|?]; [by left|right; by right]|].
      intros [?|[?|?]]; [by left|done|by right].
Qed.

(** The graph of [aon] is made of the edges, whatever the weights. *)
Lemma aon_graph_built edges costs H :
  aon_graph edges costs = Ok H ->
  exists ws, length ws = length edges
    /\ H = nx_add_edges nx_empty (zip edges ws)
    /\ forall i w, ws !! i = Some w -> costs !! i = Some w.
Proof.
  unfold aon_graph, enumerate.
  assert (Hgen : forall (l : list edge) n H0 H,
    for_each (fun H '(idx, (u, v)) =>
                w ← getitem costs idx; Ok (nx_add_edge H u v w))
      (imap (fun i x => ((n + i)%nat, x)) l) H0 = Ok H ->
    exists ws, length ws = length l
      /\ H = nx_add_edges H0 (zip l ws)
      /\ forall i w, ws !! i = Some w -> costs !! (n + i)%nat = Some w).
  { clear. induction l as [|[u v] l IH]; intros n H0 H; simpl.
    - intros [= <-]. exists []. by split; [|split].
    - intros (H1 & Hadd & Hrun)%bind_Ok.
      apply bind_Ok in Hadd as (w & Hw & [= <-]).
      rewrite (imap_ext _ (fun i x => ((S n + i)%nat, x))) in Hrun
        by (intros; simpl; f_equal; lia).
      apply IH in Hrun as (ws & Hlen & -> & Hws).
      exists (w :: ws). split; [simpl; lia|]. split; [done|].
      intros [|i] w'; simpl.
      + intros [= <-]. unfold getitem in Hw.
        destruct (costs !! (n + 0)%nat); by simplify_eq.
      + intros Hi. rewrite <- (Hws i w' Hi). f_equal. lia. }
  intros Hrun. by apply (Hgen edges 0%nat) in Hrun.
Qed.

(** So is the graph of [compute_od_travel_times]. *)
Lemma travel_graph_built g H :
  travel_graph g = Ok H ->
  exists ws, length ws = length (G_edges g)
    /\ H = nx_add_edges nx_empty (zip (G_edges g) ws).
Proof.
  unfold travel_graph. generalize (G_edges g) as l. generalize nx_empty as H0.
  intros H0 l. revert H0 H; induction l as [|[u v] l IH]; intros H0 H; simpl.
  - intros [= <-]. by exists [].
  - intros (H1 & Hadd & Hrun)%bind_Ok.
    apply bind_Ok in Hadd as (d & _ & Hadd).
    apply bind_Ok in Hadd as (c & _ & [= <-]).
    apply IH in Hrun as (ws & Hlen & ->).
    exists (c :: ws). split; [simpl; lia|done].
Qed.

Lemma fst_zip_edges (edges : list edge) (ws : list float) :
  length ws = length edges -> map fst (zip edges ws) = edges.
Proof. intros Hlen. apply fst_zip. lia. Qed.

(** Paths of a graph made of the edges are paths along the edges. *)
Lemma nx_path_built edges ws o d p :
  length ws = length edges ->
  nx_path (nx_add_edges nx_empty (zip edges ws)) o d p <-> is_path edges o d p.
Proof.
  intros Hlen. unfold nx_path, is_path.
  assert (Hw : forall a b,
    is_Some (nx_weight (nx_add_edges nx_empty (zip edges ws)) a b)
    <-> (a, b) ∈ edges).
  { intros a b. rewrite nx_weight_add_edges_is_Some, fst_zip_edges by done.
    split; [intros [[? [=]]|?]; done|by right]. }
  assert (Hn : forall x,
    x ∈ nx_nodes (nx_add_edges nx_empty (zip edges ws)) <-> x ∈ endpoints edges).
  { intros x. rewrite nx_nodes_add_edges, fst_zip_edges by done.
    split; [intros [Hin|?]; [by apply elem_of_nil in Hin|done]|by right]. }
  rewrite !Forall_forall.
  split; intros (Hh & Hl & He & Hx); (split; [done|split; [done|split]]).
  - intros [a b] Hin. apply Hw. by apply (He (a, b)).
  - intros x Hin. by apply Hn, Hx.
  - intros [a b] Hin. apply Hw. by apply (He (a, b)).
  - intros x Hin. by apply Hn, Hx.
Qed.

Lemma endpoints_are_nodes g x :
  wf_graph g -> x ∈ endpoints (G_edges g) -> x ∈ G_nodes g.
Proof.
  intros [_ Hclosed] Hx. unfold endpoints in Hx.
  apply list_elem_of_In, in_flat_map in Hx as ([u v] & Huv & Hx).
  apply list_elem_of_In in Huv, Hx.
  apply elem_of_G_edges in Huv as (nbrs & Hin & Hv).
  rewrite Forall_forall in Hclosed. specialize (Hclosed _ Hin) as [_ Hsucc].
  rewrite Forall_forall in Hsucc.
  apply elem_of_cons in Hx as [->|Hx].
  - unfold G_nodes, Dict.keys. apply list_elem_of_fmap. by exists (u, nbrs).
  - apply list_elem_of_singleton in Hx as ->. by apply Hsucc.
Qed.

(** *** Demands that the shortest-path query rejects *)

Variable py_sum : list float -> float.

Lemma aon_demand_raise edges H y o d q e :
  nx_shortest_path H o d = Raise e ->
  aon_demand nx_shortest_path edges H y (o, d, q) = Ok y.
Proof. unfold aon_demand. by intros ->. Qed.

Lemma od_total_cost_raise g H o d e :
  nx_shortest_path H o d = Raise e ->
  od_total_cost nx_shortest_path py_sum g H o d = Raise e.
Proof. unfold od_total_cost. by intros ->. Qed.

Lemma od_loop_none g H o d e (demands : list demand)
    (acc m : Dict.t (Z * Z) (option float)) :
  nx_shortest_path H o d = Raise e ->
  for_each (fun od_costs '(o, d, _) =>
              match od_total_cost nx_shortest_path py_sum g H o d with
              | Ok total_cost => Ok (Dict.set od_costs (o, d) (Some total_cost))
              | Raise _ => Ok (Dict.set od_costs (o, d) None)
              | OutsideModel => OutsideModel
              end) demands acc = Ok m ->
  Dict.get acc (o, d) = Some None \/ (exists q, (o, d, q) ∈ demands) ->
  Dict.get m (o, d) = Some None.
Proof.
  intros Hsp. revert acc; induction demands as [|[[o' d'] q'] demands IH];
    intros acc; simpl.
  - intros [= <-] [?|[q Hq]]; [done|]. by apply elem_of_nil in Hq.
  - intros (acc1 & Hstep & Hrun)%bind_Ok Hcase. apply (IH acc1 Hrun).
    destruct (decide ((o', d') = (o, d))) as [[= -> ->]|Hne].
    + left. rewrite (od_total_cost_raise _ _ _ _ _ Hsp) in Hstep.
      injection Hstep as <-. apply Dict_get_set_eq.
    + destruct Hcase as [Hacc|[q Hq]].
      * left. destruct (od_total_cost _ _ _ _ _ _) in Hstep;
          simplify_eq; by rewrite Dict_get_set_ne.
      * right. exists q. apply elem_of_cons in Hq as [[= <- <- _]|?]; done.
Qed.

(** What the two entry points do with a demand whose query raises. *)
Lemma raising_demand_is_skipped g demands costs Ha Ht o d q e1 e2 :
  aon_graph (G_edges g) costs = Ok Ha ->
  travel_graph g = Ok Ht ->
  nx_shortest_path Ha o d = Raise e1 ->
  nx_shortest_path Ht o d = Raise e2 ->
  demand_is_skipped nx_shortest_path py_sum g demands costs Ha o d q.
Proof.
  intros Ha_eq Ht_eq Hsp_a Hsp_t. unfold demand_is_skipped.
  assert (Hskip : forall y,
    aon_demand nx_shortest_path (G_edges g) Ha y (o, d, q) = Ok y)
    by (intros y; by eapply aon_demand_raise).
  assert (Haon : forall ds,
    aon nx_shortest_path (G_edges g) ds costs
    = for_each (aon_demand nx_shortest_path (G_edges g) Ha) ds
        (zeros (length (G_edges g))))
    by (intros ds; unfold aon; by rewrite Ha_eq).
  split; [done|]. split; [|split; [|split]].
  - rewrite Haon. cbn [for_each]. by rewrite Hskip.
  - intros ds1 ds2. rewrite !Haon, !for_each_app.
    destruct (for_each _ ds1 _); try done.
    cbn [mbind result_bind for_each]. by rewrite Hskip.
  - unfold compute_od_travel_times. rewrite Ht_eq.
    cbn [mbind result_bind for_each].
    by rewrite (od_total_cost_raise _ _ _ _ _ Hsp_t).
  - intros m Hin. unfold compute_od_travel_times. rewrite Ht_eq.
    cbn [mbind result_bind].
    intros Hrun. eapply od_loop_none; [done|done|]. right. by exists q.
Qed.

(** C8: a demand [(o, d, q)] with no path from [o] to [d] along the edges of
    the network is no error in either entry point, given that
    [nx.shortest_path] behaves as documented on the two queries.  [aon]
    skips it: the demand adds nothing to any component, alone or among other
    demands.  [compute_od_travel_times] maps the pair to [None]. *)
Theorem no_path_is_not_an_error g demands costs Ha Ht o d q :
  aon_graph (G_edges g) costs = Ok Ha ->
  travel_graph g = Ok Ht ->
  shortest_path_contract nx_shortest_path Ha o d ->
  shortest_path_contract nx_shortest_path Ht o d ->
  ~ has_path (G_edges g) o d ->
  demand_is_skipped nx_shortest_path py_sum g demands costs Ha o d q.
Proof.
  intros Ha_eq Ht_eq Hca Hct Hno.
  assert (Hraise : forall H ws,
    length ws = length (G_edges g) ->
    H = nx_add_edges nx_empty (zip (G_edges g) ws) ->
    shortest_path_contract nx_shortest_path H o d ->
    exists e, nx_shortest_path H o d = Raise e).
  { intros H ws Hlen -> Hc.
    destruct (decide (o ∈ nx_nodes (nx_add_edges nx_empty (zip (G_edges g) ws))));
      [|eexists; apply (sp_node_not_found _ _ _ _ Hc); by left].
    destruct (decide (d ∈ nx_nodes (nx_add_edges nx_empty (zip (G_edges g) ws))));
      [|eexists; apply (sp_node_not_found _ _ _ _ Hc); by right].
    apply (sp_no_path _ _ _ _ Hc); [done|done|].
    intros [p Hp]. apply Hno. exists p.
    by apply (nx_path_built _ ws). }
  destruct (aon_graph_built _ _ _ Ha_eq) as (wa & Hla & Hwa & _).
  destruct (travel_graph_built _ _ Ht_eq) as (wt & Hlt & Hwt).
  destruct (Hraise Ha wa Hla Hwa Hca) as [e1 He1].
  destruct (Hraise Ht wt Hlt Hwt Hct) as [e2 He2].
  by eapply raising_demand_is_skipped.
Qed.

(** C10: a demand whose origin or destination is not a node of the graph is
    treated like a demand without a path.  The query raises [NodeNotFound]
    (networkx's documented behaviour), the bare [except] of [aon] swallows
    it, so that the demand adds nothing and no error is raised, and
    [compute_od_travel_times] maps the pair to [None]. *)
Theorem unknown_node_is_not_an_error g demands costs Ha Ht o d q :
  wf_graph g ->
  aon_graph (G_edges g) costs = Ok Ha ->
  travel_graph g = Ok Ht ->
  shortest_path_contract nx_shortest_path Ha o d ->
  shortest_path_contract nx_shortest_path Ht o d ->
  o ∉ G_nodes g \/ d ∉ G_nodes g ->
  nx_shortest_path Ha o d = Raise NodeNotFound
  /\ nx_shortest_path Ht o d = Raise NodeNotFound
  /\ demand_is_skipped nx_shortest_path py_sum g demands costs Ha o d q.
Proof.
  intros Hwf Ha_eq Ht_eq Hca Hct Hmissing.
  assert (Hraise : forall H ws,
    length ws = length (G_edges g) ->
    H = nx_add_edges nx_empty (zip (G_edges g) ws) ->
    shortest_path_contract nx_shortest_path H o d ->
    nx_shortest_path H o d = Raise NodeNotFound).
  { intros H ws Hlen -> Hc. apply (sp_node_not_found _ _ _ _ Hc).
    assert (Hsub : forall x,
      x ∈ nx_nodes (nx_add_edges nx_empty (zip (G_edges g) ws)) -> x ∈ G_nodes g).
    { intros x [Hx|Hx]%nx_nodes_add_edges; [by apply elem_of_nil in Hx|].
      rewrite fst_zip_edges in Hx by done. by apply endpoints_are_nodes. }
    destruct Hmissing as [Ho|Hd]; [left|right]; intros Hin; auto. }
  destruct (aon_graph_built _ _ _ Ha_eq) as (wa & Hla & Hwa & _).
  destruct (travel_graph_built _ _ Ht_eq) as (wt & Hlt & Hwt).
  pose proof (Hraise Ha wa Hla Hwa Hca) as He1.
  pose proof (Hraise Ht wt Hlt Hwt Hct) as He2.
  split; [done|]. split; [done|].
  by eapply raising_demand_is_skipped.
Qed.

(** *** Adding non-negative floats *)

Lemma nonneg_spec x : nonneg x <-> sf_nonneg (Prim2SF x) = true.
Proof.
  unfold nonneg. rewrite leb_spec.
  change (Prim2SF 0) with (S754_zero false).
  destruct (Prim2SF x) as [s|s| |s m e]; simpl; try done; destruct s; done.
Qed.

Lemma shr_1_nonneg mrs : 0 <= shr_m mrs -> 0 <= shr_m (shr_1 mrs).
Proof.
  destruct mrs as [m r s]. simpl. destruct m as [|[p|p|]|[p|p|]]; simpl; lia.
Qed.

Lemma iter_pos_shr_1_nonneg p mrs :
  0 <= shr_m mrs -> 0 <= shr_m (SpecFloat.iter_pos shr_1 p mrs).
Proof.
  revert mrs. induction p as [p IH|p IH|]; intros mrs H; simpl.
  - apply IH, IH. by apply shr_1_nonneg.
  - by apply IH, IH.
  - by apply shr_1_nonneg.
Qed.

Lemma shr_fexp_nonneg pr em m e l :
  0 <= m -> 0 <= shr_m (fst (shr_fexp pr em m e l)).
Proof.
  intros Hm. unfold shr_fexp, shr.
  assert (0 <= shr_m (shr_record_of_loc m l)) by (by destruct l as [|[]]).
  destruct (_ - e) as [|p|p]; simpl; [done| |done].
  by apply iter_pos_shr_1_nonneg.
Qed.

Lemma round_nearest_even_nonneg m l : 0 <= m -> 0 <= round_nearest_even m l.
Proof.
  intros Hm. destruct l as [|[]]; simpl; try done; [|lia].
  destruct (Z.even m); lia.
Qed.

Lemma binary_round_aux_nonneg pr em m e l :
  0 <= m -> sf_nonneg (binary_round_aux pr em false m e l) = true.
Proof.
  intros Hm. unfold binary_round_aux.
  pose proof (shr_fexp_nonneg pr em m e l Hm) as H1.
  destruct (shr_fexp pr em m e l) as [mrs' e']. simpl in H1.
  pose proof (shr_fexp_nonneg pr em _ e' loc_Exact
                (round_nearest_even_nonneg _ (loc_of_shr_record mrs') H1)) as H2.
  destruct (shr_fexp pr em _ e' loc_Exact) as [mrs'' e'']. simpl in H2.
  destruct (shr_m mrs''); simpl; [done| |lia].
  by destruct (_ <=? _).
Qed.

Lemma SFadd_nonneg pr em x y :
  sf_nonneg x = true -> sf_nonneg y = true -> sf_nonneg (SFadd pr em x y) = true.
Proof.
  destruct x as [sx|sx| |sx mx ex], y as [sy|sy| |sy my ey]; simpl; try done;
    try (by destruct sx, sy).
  destruct sx, sy; try done. intros _ _. simpl.
  unfold binary_normalize, binary_round.
  destruct (shl_align _ _ _) as [mz ez]. by apply binary_round_aux_nonneg.
Qed.

Lemma nonneg_add x y : nonneg x -> nonneg y -> nonneg (x + y).
Proof.
  rewrite !nonneg_spec, add_spec. apply SFadd_nonneg.
Qed.

(** *** All-or-nothing assignment *)

Lemma aon_graph_Ok edges costs :
  (length edges <= length costs)%nat ->
  aon_graph edges costs = Ok (nx_add_edges nx_empty (zip edges costs)).
Proof.
  unfold aon_graph, enumerate. intros Hlen.
  assert (Hgen : forall (l : list edge) n H0,
    (n + length l <= length costs)%nat ->
    for_each (fun H '(idx, (u, v)) =>
                w ← getitem costs idx; Ok (nx_add_edge H u v w))
      (imap (fun i x => ((n + i)%nat, x)) l) H0
    = Ok (nx_add_edges H0 (zip l (drop n costs)))).
  { clear. induction l as [|[u v] l IH]; intros n H0 Hlen; [done|].
    simpl in Hlen.
    destruct (lookup_lt_is_Some_2 costs n) as [w Hw]; [lia|].
    rewrite (drop_S _ _ _ Hw). cbn [imap for_each zip zip_with].
    assert (getitem costs (n + 0) = Ok w) as ->
      by (unfold getitem; by rewrite Nat.add_0_r, Hw).
    cbn [mbind result_bind].
    rewrite (imap_ext _ (fun i x => ((S n + i)%nat, x)))
      by (intros; simpl; f_equal; lia).
    rewrite IH by lia. reflexivity. }
  exact (Hgen edges 0%nat nx_empty Hlen).
Qed.

Lemma nx_weight_add_edges_fresh es H a b :
  (a, b) ∉ map fst es -> nx_weight (nx_add_edges H es) a b = nx_weight H a b.
Proof.
  unfold nx_add_edges. revert H; induction es as [|[[u v] w] es IH];
    intros H Hfresh; simpl; [done|].
  simpl in Hfresh. apply not_elem_of_cons in Hfresh as [Hne Hfresh].
  rewrite IH by done. rewrite nx_weight_add_edge. by rewrite decide_False.
Qed.

Lemma nx_weight_add_edges_NoDup es H a b w :
  NoDup (map fst es) -> ((a, b), w) ∈ es ->
  nx_weight (nx_add_edges H es) a b = Some w.
Proof.
  revert H; induction es as [|[[u v] w'] es IH]; intros H Hnd Hin.
  - by apply elem_of_nil in Hin.
  - simpl in Hnd. apply NoDup_cons in Hnd as [Hhead Hnd].
    change (nx_add_edges H (((u, v), w') :: es))
      with (nx_add_edges (nx_add_edge H u v w') es).
    apply elem_of_cons in Hin as [[= -> -> ->]|Hin]; [|by apply IH].
    rewrite nx_weight_add_edges_fresh by done.
    rewrite nx_weight_add_edge. by rewrite decide_True.
Qed.

Lemma aon_graph_weights edges costs i a b :
  NoDup edges -> length costs = length edges ->
  edges !! i = Some (a, b) ->
  nx_weight (nx_add_edges nx_empty (zip edges costs)) a b = costs !! i.
Proof.
  intros Hnd Hlen Hi.
  destruct (lookup_lt_is_Some_2 costs i) as [w Hw].
  { rewrite Hlen. by eapply lookup_lt_Some. }
  rewrite Hw. apply nx_weight_add_edges_NoDup.
  - by rewrite fst_zip_edges.
  - apply list_elem_of_lookup. exists i.
    apply lookup_zip_with_Some. by exists (a, b), w.
Qed.







Lemma nx_path_nodes H o d p :
  nx_path H o d p -> o ∈ nx_nodes H /\ d ∈ nx_nodes H.
Proof.
  intros (Hh & Hl & _ & Hn). rewrite Forall_forall in Hn. split; apply Hn.
  - destruct p; [done|]. injection Hh as ->. left.
  - apply last_Some in Hl as [l' ->]. apply elem_of_app. right. left.
Qed.



End SolverFacts.

(** ** The theorems at concrete networks *)


Lemma wf_fork_net : wf_graph fork_net.
Proof.
  split; [compute_done|].
  repeat (apply Forall_cons; split; [split; compute_done|]). constructor.
Qed.

Lemma frank_wolfe_deterministic_witness :
  network_of one_edge_net = network_of one_edge_net_used
  /\ frank_wolfe_assignment dot_seq search_shortest_path
       one_edge_net [(1, 2, 100%float)] 80 0x1p-14%float
     = frank_wolfe_assignment dot_seq search_shortest_path
         one_edge_net_used [(1, 2, 100%float)] 80 0x1p-14%float
  /\ frank_wolfe_assignment dot_seq search_shortest_path
       (snd (frank_wolfe_assignment dot_seq search_shortest_path
               one_edge_net [(1, 2, 100%float)] 80 0x1p-14%float))
       [(1, 2, 100%float)] 80 0x1p-14%float
     = frank_wolfe_assignment dot_seq search_shortest_path
         one_edge_net [(1, 2, 100%float)] 80 0x1p-14%float.
Proof.
  split; [vm_compute; reflexivity|].
  apply (frank_wolfe_deterministic dot_seq search_shortest_path).
  vm_compute. reflexivity.
Defined.

Lemma frank_wolfe_resets_and_writes_witness :
  wf_graph one_edge_net_used
  /\ solver_run_spec dot_seq search_shortest_path
       one_edge_net_used [(1, 2, 100%float)] 80 0x1p-14%float.
Proof.
  assert (Hwf : wf_graph one_edge_net_used).
  { split; [compute_done|].
    repeat (apply Forall_cons; split; [split; compute_done|]).
    constructor. }
  split; [exact Hwf|].
  exact (frank_wolfe_resets_and_writes dot_seq search_shortest_path
           one_edge_net_used [(1, 2, 100%float)] 80 0x1p-14%float Hwf).
Defined.

(** On [one_edge_net] the run ends with flow 100 on the edge. *)
Example one_edge_run :
  frank_wolfe_assignment dot_seq search_shortest_path
    one_edge_net_used [(1, 2, 100%float)] 80 0x1p-14%float
  = (Ok [((1, 2), 100%float)],
     match set_flow one_edge_net 1 2 100 with Ok g => g | _ => [] end).
Proof. vm_compute. reflexivity. Qed.


(** The step found on [detour_net]: the norm test fails at the start, and the
    search moves about nine tenths of the way. *)
Example detour_step :
  (np_linalg_norm dot_seq (vsub [0; 10; 10] [10; 0; 0]) <? 0x1p-14)%float = false
  /\ match line_search dot_seq detour_net (G_edges detour_net) [10; 0; 0]%float
            (vsub [0; 10; 10]%float [10; 0; 0]%float) with
     | Ok step => (0.875 <? step)%float && (step <? 0.9375)%float
     | _ => false
     end = true.
Proof. split; vm_compute; reflexivity. Qed.

(** [search_shortest_path] meets the contract on the queries of the
    examples. *)
Lemma search_contract_fork_2_3 :
  shortest_path_contract search_shortest_path fork_H 2 3.
Proof.
  assert (Hno : ~ nx_has_path fork_H 2 3).
  { intros (p & Hh & Hl & Hw & _).
    destruct p as [|x [|b r]]; simplify_eq/=.
    apply Forall_cons in Hw as [[w Hw] _]. vm_compute in Hw. discriminate. }
  split.
  - intros [Hn|Hn]; exfalso; apply Hn; compute_done.
  - intros _ _ _. exists NetworkXNoPath. vm_compute. reflexivity.
  - intros _ Hp. by destruct Hno.
  - intros p Hp. vm_compute in Hp. discriminate.
Qed.

Lemma search_contract_fork_9_1 :
  shortest_path_contract search_shortest_path fork_H 9 1.
Proof.
  assert (Hout : 9 ∉ nx_nodes fork_H) by compute_done.
  split.
  - intros _. vm_compute. reflexivity.
  - intros Ho. by destruct Hout.
  - intros _ [p Hp]. apply nx_path_nodes in Hp as [Ho _]. by destruct Hout.
  - intros p Hp. vm_compute in Hp. discriminate.
Qed.


Lemma no_path_is_not_an_error_witness :
  ~ has_path (G_edges fork_net) 2 3
  /\ demand_is_skipped search_shortest_path sum_seq fork_net
       [(1, 2, 100%float); (2, 3, 50%float)] [5; 5]%float fork_H 2 3 50.
Proof.
  assert (Hno : ~ has_path (G_edges fork_net) 2 3).
  { intros (p & Hh & Hl & Hw & _).
    destruct p as [|x [|b r]]; simplify_eq/=.
    apply Forall_cons in Hw as [Hw _]. vm_compute in Hw.
    apply elem_of_cons in Hw as [[=]|Hw].
    apply elem_of_cons in Hw as [[=]|Hw]. by apply elem_of_nil in Hw. }
  split; [exact Hno|].
  apply (no_path_is_not_an_error search_shortest_path sum_seq fork_net
           [(1, 2, 100%float); (2, 3, 50%float)] [5; 5]%float fork_H fork_H).
  - vm_compute. reflexivity.
  - vm_compute. reflexivity.
  - apply search_contract_fork_2_3.
  - apply search_contract_fork_2_3.
  - exact Hno.
Defined.

(** The example of the specification: travel time absent, no flow added. *)
Example no_path_example :
  compute_od_travel_times search_shortest_path sum_seq fork_net
    [(1, 2, 100%float); (2, 3, 50%float)]
  = Ok [((1, 2), Some 5%float); ((2, 3), None)]
  /\ aon search_shortest_path (G_edges fork_net)
       [(1, 2, 100%float); (2, 3, 50%float)] [5; 5]%float
     = Ok [100; 0]%float.
Proof. split; vm_compute; reflexivity. Qed.

Lemma unknown_node_is_not_an_error_witness :
  (9 ∉ G_nodes fork_net \/ 1 ∉ G_nodes fork_net)
  /\ search_shortest_path fork_H 9 1 = Raise NodeNotFound
  /\ search_shortest_path fork_H 9 1 = Raise NodeNotFound
  /\ demand_is_skipped search_shortest_path sum_seq fork_net
       [(9, 1, 5%float)] [5; 5]%float fork_H 9 1 5.
Proof.
  assert (Hout : 9 ∉ G_nodes fork_net \/ 1 ∉ G_nodes fork_net)
    by (left; compute_done).
  split; [exact Hout|].
  apply (unknown_node_is_not_an_error search_shortest_path sum_seq fork_net
           [(9, 1, 5%float)] [5; 5]%float fork_H fork_H).
  - apply wf_fork_net.
  - vm_compute. reflexivity.
  - vm_compute. reflexivity.
  - apply search_contract_fork_9_1.
  - apply search_contract_fork_9_1.
  - exact Hout.
Defined.


(** The example of the specification: one edge of cost 5 and the demand
    [(1, 2, 100)] give flow 100 on the edge. *)
Example aon_one_edge :
  aon search_shortest_path [(1, 2)] [(1, 2, 100%float)] [5%float]
  = Ok [100%float].
Proof. vm_compute. reflexivity. Qed.

(** * Further properties *)

(** ** The sandbox *)



(** X2: the nodes are checked in the order of [ast.walk], breadth first, and
    the first one that fails decides the error: when the nodes walked before
    [n] pass and [n] does not, the message is the one of [n]. *)
Theorem compile_reports_first_offender expr tree before n after :
  ast_parse (expr_text expr) = Ok tree ->
  ast_walk tree = before ++ n :: after ->
  Forall (fun x => offending x = false) before ->
  offending n = true ->
  compile_cost_expr expr = Raise (UnsafeExpression (rejection_message n)).
Proof.
  intros Hp Hwalk Hbefore Hn.
  rewrite (compile_parsed _ _ Hp), Hwalk, for_each_app, check_loop_ok by done.
  cbn [mbind result_bind for_each]. rewrite check_node_spec, Hn. done.
Qed.

(** In ["g(x.y)"] the name [g] is walked before the attribute below the
    call, so the unknown name is what the error reports. *)
Lemma compile_reports_first_offender_witness :
  compile_cost_expr (Some "g(x.y)"%string)
  = Raise (UnsafeExpression "Unknown name: g").
Proof.
  apply (compile_reports_first_offender (Some "g(x.y)"%string)
           (Node Expression
              [mk_call (mk_name "g") [mk_attribute (mk_name "x") "y"] []])
           [Node Expression
              [mk_call (mk_name "g") [mk_attribute (mk_name "x") "y"] []];
            mk_call (mk_name "g") [mk_attribute (mk_name "x") "y"] []]
           (mk_name "g")
           [mk_attribute (mk_name "x") "y"; Node Load []; mk_name "x";
            Node Load []; Node Load []]).
  - vm_compute. reflexivity.
  - vm_compute. reflexivity.
  - repeat constructor.
  - reflexivity.
Defined.

(** *** Blank text and padding *)

Lemma chars_of_string_of_chars cs : chars_of_string (string_of_chars cs) = cs.
Proof. induction cs as [|c cs IH]; simpl; [done|by rewrite IH]. Qed.

Lemma string_of_chars_of_string s : string_of_chars (chars_of_string s) = s.
Proof. induction s as [|c s IH]; simpl; [done|by rewrite IH]. Qed.

Lemma lstrip_cons c cs :
  lstrip (c :: cs) = if is_space c then lstrip cs else c :: cs.
Proof.
  unfold lstrip. simpl. destruct (is_space c); [|done].
  by destruct (span is_space cs).
Qed.

Lemma lstrip_spaces l cs : forallb is_space l = true -> lstrip (l ++ cs) = lstrip cs.
Proof.
  induction l as [|c l IH]; simpl; [done|].
  intros [Hc Hl]%andb_prop. rewrite lstrip_cons, Hc. auto.
Qed.

Lemma lstrip_app_spaces cs r :
  forallb is_space r = true ->
  lstrip (cs ++ r) = match lstrip cs with [] => [] | x => x ++ r end.
Proof.
  intros Hr. induction cs as [|c cs IH].
  - simpl. rewrite <- (app_nil_r r), lstrip_spaces by done. done.
  - rewrite <- app_comm_cons, !lstrip_cons. by destruct (is_space c).
Qed.

Lemma forallb_rev {A} (p : A -> bool) l : forallb p (rev l) = forallb p l.
Proof.
  induction l as [|x l IH]; simpl; [done|].
  rewrite forallb_app, IH. simpl. rewrite andb_true_r. apply andb_comm.
Qed.

Lemma strip_padding l r s :
  forallb is_space l = true -> forallb is_space r = true ->
  strip (string_of_chars (l ++ chars_of_string s ++ r)) = strip s.
Proof.
  intros Hl Hr. unfold strip. f_equal. f_equal.
  rewrite chars_of_string_of_chars, lstrip_spaces, lstrip_app_spaces by done.
  destruct (lstrip (chars_of_string s)) as [|c x]; [done|].
  rewrite rev_app_distr, lstrip_spaces; [done|]. by rewrite forallb_rev.
Qed.

Lemma compile_text expr expr' :
  expr_text expr = expr_text expr' ->
  compile_cost_expr expr = compile_cost_expr expr'.
Proof. unfold compile_cost_expr. by intros ->. Qed.

(** X3: white space around an expression makes no difference: the padded
    text compiles to what the bare text compiles to, be it a cost function
    or an error. *)
Theorem surrounding_whitespace_is_ignored (l r : list ascii) (s : string) :
  forallb is_space l = true -> forallb is_space r = true ->
  compile_cost_expr (Some (string_of_chars (l ++ chars_of_string s ++ r)))
  = compile_cost_expr (Some s).
Proof.
  intros Hl Hr. apply compile_text. unfold expr_text.
  by rewrite strip_padding.
Qed.

Lemma surrounding_whitespace_is_ignored_witness :
  compile_cost_expr (Some "  1/f "%string) = compile_cost_expr (Some "1/f"%string).
Proof.
  apply (surrounding_whitespace_is_ignored
           [" "%char; " "%char] [" "%char] "1/f"); reflexivity.
Defined.

(** X4: a missing expression ([None]) and a text of white space only stand
    for the constant ["1.0"]: the cost function returns 1.0 at every flow. *)
Theorem blank_expression_is_one (ws : list ascii) (x : float) :
  forallb is_space ws = true ->
  compile_cost_expr None = compile_cost_expr (Some "1.0"%string)
  /\ compile_cost_expr (Some (string_of_chars ws))
     = compile_cost_expr (Some "1.0"%string)
  /\ exists c, compile_cost_expr (Some (string_of_chars ws)) = Ok c
       /\ compile_cost_expr None = Ok c
       /\ cost c x = Ok 1%float.
Proof.
  intros Hws.
  assert (Hblank : compile_cost_expr (Some (string_of_chars ws))
                   = compile_cost_expr (Some ""%string)).
  { apply compile_text. unfold expr_text.
    pose proof (strip_padding ws [] "" Hws eq_refl) as Hs.
    simpl in Hs. rewrite app_nil_r in Hs. by rewrite Hs. }
  assert (Hone : compile_cost_expr (Some ""%string)
                 = Ok (Cost (Node Expression [mk_const (CFloat 1)])))
    by (vm_compute; reflexivity).
  split; [vm_compute; reflexivity|].
  split; [rewrite Hblank, Hone; vm_compute; reflexivity|].
  exists (Cost (Node Expression [mk_const (CFloat 1)])).
  split; [by rewrite Hblank|]. split; [vm_compute; reflexivity|].
  reflexivity.
Qed.

Lemma blank_expression_is_one_witness :
  compile_cost_expr None = compile_cost_expr (Some "1.0"%string)
  /\ compile_cost_expr (Some (string_of_chars [" "%char; "009"%char]))
     = compile_cost_expr (Some "1.0"%string)
  /\ exists c,
       compile_cost_expr (Some (string_of_chars [" "%char; "009"%char])) = Ok c
       /\ compile_cost_expr None = Ok c
       /\ cost c 7 = Ok 1%float.
Proof.
  apply (blank_expression_is_one [" "%char; "009"%char] 7). reflexivity.
Defined.

(** ** The graph *)

Lemma G_item_alt (g : TrafficGraph) a b :
  G_item g a b = Dict.item (default [] (Dict.get g a)) b.
Proof.
  unfold G_item, Dict.item. destruct (Dict.get g a); reflexivity.
Qed.

Lemma G_add_node_get g n x :
  default [] (Dict.get (G_add_node g n) x) = default [] (Dict.get g x).
Proof.
  unfold G_add_node, Dict.contains.
  destruct (Dict.get g n) as [nb|] eqn:Hn; [done|].
  destruct (decide (n = x)) as [->|Hne].
  - by rewrite Dict_get_set_eq, Hn.
  - by rewrite Dict_get_set_ne.
Qed.

Lemma G_add_node_keys g n x :
  x ∈ Dict.keys (G_add_node g n) <-> x ∈ Dict.keys g \/ x = n.
Proof.
  unfold G_add_node, Dict.contains.
  destruct (Dict.get g n) as [nb|] eqn:Hn.
  - split; [by left|]. intros [?| ->]; [done|].
    destruct (decide (n ∈ Dict.keys g)) as [|Hno]; [done|].
    apply Dict_get_None in Hno. congruence.
  - apply Dict_get_None in Hn. rewrite Dict_keys_set_absent by done.
    rewrite elem_of_app, list_elem_of_singleton. done.
Qed.

Lemma G_add_node_item g n a b : G_item (G_add_node g n) a b = G_item g a b.
Proof. by rewrite !G_item_alt, G_add_node_get. Qed.

Lemma Dict_get_is_Some {K V} `{EqDecision K} (d : Dict.t K V) k :
  is_Some (Dict.get d k) <-> k ∈ Dict.keys d.
Proof.
  destruct (Dict.get d k) as [v|] eqn:Hk.
  - split; [intros _|by eexists].
    destruct (decide (k ∈ Dict.keys d)) as [|Hno]; [done|].
    apply Dict_get_None in Hno. congruence.
  - split; [by intros [? [=]]|]. intros Hin.
    apply Dict_get_None in Hk. done.
Qed.

Lemma edge_iff_item g a b :
  NoDup (Dict.keys g) ->
  (a, b) ∈ G_edges g <-> exists d, G_item g a b = Ok d.
Proof.
  intros Hnd. split; [by apply G_item_of_edge|].
  intros (d & (nbrs & Ha & Hb)%G_item_Ok). apply elem_of_G_edges.
  exists nbrs. split; [by apply Dict_get_Some_elem|].
  apply Dict_get_is_Some. by eexists.
Qed.

(** *** The invariant of the graph *)

Lemma wf_entries_mono ks ks' g :
  (forall x, x ∈ ks -> x ∈ ks') -> wf_entries ks g -> wf_entries ks' g.
Proof.
  intros Hsub Hg. eapply Forall_impl; [exact Hg|].
  intros [u nbrs] [Hnd Hin].
  split; [done|]. eapply Forall_impl; [exact Hin|]. done.
Qed.

Lemma Dict_set_Forall {K V} `{EqDecision K} (P : K * V -> Prop)
    (d : Dict.t K V) k v :
  Forall P d -> P (k, v) -> Forall P (Dict.set d k v).
Proof.
  intros Hd Hk. induction d as [|[k' v'] d IH]; simpl.
  - by constructor.
  - apply Forall_cons in Hd as [H1 H2].
    destruct (decide (k' = k)) as [->|Hne]; constructor; auto.
Qed.

Lemma Dict_keys_set_NoDup {K V} `{EqDecision K} (d : Dict.t K V) k v :
  NoDup (Dict.keys d) -> NoDup (Dict.keys (Dict.set d k v)).
Proof.
  intros Hnd. destruct (decide (k ∈ Dict.keys d)) as [Hin|Hout].
  - by rewrite Dict_keys_set_present.
  - rewrite Dict_keys_set_absent by done. apply NoDup_app.
    split; [done|]. split; [|apply NoDup_singleton].
    intros x Hx ->%list_elem_of_singleton. done.
Qed.

Lemma Dict_keys_set_elem {K V} `{EqDecision K} (d : Dict.t K V) k v x :
  x ∈ Dict.keys (Dict.set d k v) <-> x ∈ Dict.keys d \/ x = k.
Proof.
  destruct (decide (k ∈ Dict.keys d)) as [Hin|Hout].
  - rewrite Dict_keys_set_present by done. split; [by left|].
    by intros [?| ->].
  - rewrite Dict_keys_set_absent by done.
    by rewrite elem_of_app, list_elem_of_singleton.
Qed.

Lemma wf_G_add_node g n : wf_graph g -> wf_graph (G_add_node g n).
Proof.
  intros [Hnd Hent]. unfold G_add_node, Dict.contains.
  destruct (Dict.get g n) as [nb|] eqn:Hn; [done|].
  apply Dict_get_None in Hn. split.
  - by apply Dict_keys_set_NoDup.
  - rewrite Dict_keys_set_absent, Dict_set_absent by done.
    apply Forall_app. split.
    + eapply (wf_entries_mono (Dict.keys g)); [|exact Hent].
      intros x Hx. apply elem_of_app. by left.
    + constructor; [|constructor]. split; [constructor|constructor].
Qed.

Lemma shape_keys g : Dict.keys g = map fst (shape g).
Proof.
  unfold shape, Dict.keys. rewrite map_map. apply map_ext. by intros [].
Qed.

Lemma wf_entries_shape ks g1 g2 :
  shape g1 = shape g2 -> wf_entries ks g1 -> wf_entries ks g2.
Proof.
  revert g2. induction g1 as [|[u nbrs] g1 IH]; intros [|[u2 nbrs2] g2] Hs Hent;
    try discriminate; [constructor|].
  injection Hs as -> Hk Hs. apply Forall_cons in Hent as [Ha Hb].
  constructor; [by rewrite <- Hk|by apply IH].
Qed.

Lemma wf_graph_shape g1 g2 : shape g1 = shape g2 -> wf_graph g1 -> wf_graph g2.
Proof.
  intros Hs [Hnd Hent].
  assert (Hk : Dict.keys g1 = Dict.keys g2) by (by rewrite !shape_keys, Hs).
  split; [by rewrite <- Hk|].
  rewrite <- Hk. by apply (wf_entries_shape _ g1).
Qed.

Lemma shape_network g1 g2 : network_of g1 = network_of g2 -> shape g1 = shape g2.
Proof.
  intros Hn.
  assert (Hs : forall g, shape g
             = map (fun '(u, l) => (u, map fst l)) (network_of g)).
  { intros g. unfold shape, network_of. rewrite map_map. apply map_ext.
    intros [u nbrs]. f_equal. unfold Dict.keys. rewrite map_map.
    apply map_ext. by intros []. }
  by rewrite !Hs, Hn.
Qed.

Lemma G_setattr_shape g u v upd g' :
  G_setattr g u v upd = Ok g' -> shape g' = shape g.
Proof.
  intros (nbrs & d & Hu & Hv & ->)%G_setattr_inv.
  unfold shape. apply (Dict_set_map _ _ _ _ nbrs); [done|].
  simpl. f_equal. unfold Dict.keys. by apply (Dict_set_map _ _ _ _ d).
Qed.

Lemma wf_add_edge g u v expr : wf_graph g -> wf_graph (snd (add_edge g u v expr)).
Proof.
  intros Hwf. unfold add_edge. destruct (compile_cost_expr expr) as [c| |]; [|done|done].
  simpl. pose proof (wf_G_add_node _ v (wf_G_add_node _ u Hwf)) as [Hnd Hent].
  set (g1 := G_add_node (G_add_node g u) v) in *.
  assert (Hu : u ∈ Dict.keys g1).
  { apply G_add_node_keys. left. apply G_add_node_keys. by right. }
  assert (Hv : v ∈ Dict.keys g1) by (apply G_add_node_keys; by right).
  split; [by apply Dict_keys_set_NoDup|].
  rewrite Dict_keys_set_present by done.
  apply Dict_set_Forall; [exact Hent|].
  assert (Hn : NoDup (Dict.keys (default [] (Dict.get g1 u)))
               /\ Forall (fun x => x ∈ Dict.keys g1)
                    (Dict.keys (default [] (Dict.get g1 u)))).
  { destruct (Dict.get g1 u) as [nb|] eqn:Hg; [|split; constructor].
    apply Dict_get_Some_elem in Hg.
    unfold wf_entries in Hent. rewrite Forall_forall in Hent.
    apply (Hent _ Hg). }
  destruct Hn as [Hn1 Hn2]. split; [by apply Dict_keys_set_NoDup|].
  apply Forall_forall. intros x [Hx| ->]%Dict_keys_set_elem; [|done].
  rewrite Forall_forall in Hn2. auto.
Qed.

Lemma dict_delete_get {K V} `{EqDecision K} (d : Dict.t K V) k x :
  Dict.get (dict_delete d k) x = if decide (x = k) then None else Dict.get d x.
Proof.
  induction d as [|[k' v'] d IH]; simpl.
  - by destruct (decide (x = k)).
  - destruct (decide (k' = k)) as [->|Hne]; simpl.
    + rewrite IH. destruct (decide (x = k)) as [->|Hx]; [done|].
      by rewrite decide_False.
    + destruct (decide (k' = x)) as [->|]; [by rewrite decide_False|done].
Qed.

Lemma dict_delete_keys {K V} `{EqDecision K} (d : Dict.t K V) k :
  Dict.keys (dict_delete d k) = filter (fun x => x <> k) (Dict.keys d).
Proof.
  unfold Dict.keys. induction d as [|[k' v'] d IH]; simpl; [done|].
  rewrite filter_cons. simpl.
  destruct (decide (k' = k)) as [->|Hne].
  - by rewrite decide_False by (by intros []).
  - rewrite decide_True by done. simpl. by rewrite IH.
Qed.

Lemma dict_delete_elem {K V} `{EqDecision K} (d : Dict.t K V) k kv :
  kv ∈ dict_delete d k -> kv ∈ d.
Proof.
  induction d as [|[k' v'] d IH]; simpl; [done|].
  destruct (decide (k' = k)).
  - intros Hin. right. auto.
  - intros [->|Hin]%elem_of_cons; [left|right; auto].
Qed.

Lemma wf_G_remove_node g n g' :
  wf_graph g -> G_remove_node g n = NxOk g' -> wf_graph g'.
Proof.
  intros [Hnd Hent]. unfold G_remove_node.
  destruct (Dict.contains g n); [|done]. intros [= <-].
  assert (Hk : Dict.keys (map (fun '(u, nbrs) => (u, dict_delete nbrs n))
                            (dict_delete g n))
               = filter (fun x => x <> n) (Dict.keys g)).
  { rewrite <- dict_delete_keys. unfold Dict.keys. rewrite map_map.
    apply map_ext. by intros []. }
  split; [rewrite Hk; by apply NoDup_filter|]. rewrite Hk.
  apply Forall_forall. intros [u nb] Hin.
  apply list_elem_of_fmap in Hin as ([u' nb'] & [= -> ->] & Hin).
  apply dict_delete_elem in Hin.
  unfold wf_entries in Hent. rewrite Forall_forall in Hent.
  destruct (Hent _ Hin) as [H1 H2]. rewrite dict_delete_keys.
  split; [by apply NoDup_filter|].
  apply Forall_forall. intros x [Hx Hx']%list_elem_of_filter.
  apply list_elem_of_filter. split; [done|].
  rewrite Forall_forall in H2. auto.
Qed.

Lemma wf_G_remove_edge g u v g' :
  wf_graph g -> G_remove_edge g u v = NxOk g' -> wf_graph g'.
Proof.
  intros [Hnd Hent]. unfold G_remove_edge.
  destruct (Dict.get g u) as [nbrs|] eqn:Hu; [|done].
  destruct (Dict.contains nbrs v); [|done]. intros [= <-].
  assert (Hin : u ∈ Dict.keys g) by (apply Dict_get_is_Some; by eexists).
  split; [by rewrite Dict_keys_set_present|].
  rewrite Dict_keys_set_present by done.
  apply Dict_set_Forall; [exact Hent|].
  apply Dict_get_Some_elem in Hu.
  unfold wf_entries in Hent. rewrite Forall_forall in Hent.
  destruct (Hent _ Hu) as [H1 H2]. rewrite dict_delete_keys.
  split; [by apply NoDup_filter|].
  apply Forall_forall. intros x [Hx Hx']%list_elem_of_filter.
  rewrite Forall_forall in H2. auto.
Qed.

Lemma Dict_get_set {K V} `{EqDecision K} (d : Dict.t K V) k v x :
  Dict.get (Dict.set d k v) x = if decide (x = k) then Some v else Dict.get d x.
Proof.
  destruct (decide (x = k)) as [->|Hne]; [apply Dict_get_set_eq|].
  by apply Dict_get_set_ne.
Qed.

(** X5: [add_edge] is all or nothing.  When the expression does not compile
    the exception is passed on and the graph is left as it was, without
    the end nodes.  When it compiles, the edge holds the text, the cost
    function and flow 0 (also when the edge was there before, with another
    flow), [u] and [v] are nodes, and no other edge is touched. *)
Theorem add_edge_spec g u v expr :
  wf_graph g ->
  (forall e, compile_cost_expr expr = Raise e ->
     add_edge g u v expr = (Raise e, g))
  /\ (forall c, compile_cost_expr expr = Ok c ->
        exists g', add_edge g u v expr = (Ok (), g')
          /\ G_item g' u v = Ok (mk_edge_data expr c 0)
          /\ (forall a b, (a, b) <> (u, v) -> G_item g' a b = G_item g a b)
          /\ (forall x, x ∈ G_nodes g' <-> x ∈ G_nodes g \/ x = u \/ x = v)
          /\ (forall e, e ∈ G_edges g' <-> e ∈ G_edges g \/ e = (u, v))).
Proof.
  intros Hwf. split; [intros e He; unfold add_edge; by rewrite He|].
  intros c Hc. pose proof (wf_add_edge g u v expr Hwf) as Hwf'.
  unfold add_edge in *. rewrite Hc in *. simpl in Hwf'.
  set (g1 := G_add_node (G_add_node g u) v) in *.
  set (g' := Dict.set g1 u _) in *.
  assert (Hu : u ∈ Dict.keys g1).
  { apply G_add_node_keys. left. apply G_add_node_keys. by right. }
  assert (H1 : forall a b, G_item g1 a b = G_item g a b)
    by (intros a b; unfold g1; by rewrite !G_add_node_item).
  assert (Hitem : G_item g' u v = Ok (mk_edge_data expr c 0)).
  { rewrite G_item_alt. unfold g'. rewrite Dict_get_set_eq. simpl.
    unfold Dict.item. by rewrite Dict_get_set_eq. }
  assert (Hframe : forall a b, (a, b) <> (u, v) -> G_item g' a b = G_item g a b).
  { intros a b Hne. rewrite <- H1, !G_item_alt. unfold g'.
    rewrite Dict_get_set. destruct (decide (a = u)) as [->|Ha]; [|done].
    simpl. unfold Dict.item. rewrite Dict_get_set_ne; [done|congruence]. }
  exists g'. split; [done|]. split; [done|]. split; [done|]. split.
  - intros x. unfold G_nodes, g'. rewrite Dict_keys_set_present by done.
    unfold g1. rewrite !G_add_node_keys. tauto.
  - intros [a b]. destruct Hwf as [Hnd _], Hwf' as [Hnd' _].
    rewrite !edge_iff_item by done.
    destruct (decide ((a, b) = (u, v))) as [[= -> ->]|Hne].
    + split; [by right|]. intros _. by eexists.
    + rewrite Hframe by done. split; [by left|]. by intros [?|?].
Qed.

Lemma add_edge_spec_witness :
  wf_graph one_edge_net_used
  /\ add_edge one_edge_net_used 1 2 (Some "f.x"%string)
     = (Raise (UnsafeExpression "Disallowed expression element: Attribute"),
        one_edge_net_used)
  /\ exists g', add_edge one_edge_net_used 1 2 (Some "2*f"%string) = (Ok (), g')
       /\ G_item g' 1 2
          = Ok (mk_edge_data (Some "2*f"%string)
                  (Cost (Node Expression
                           [mk_binop (mk_const (CInt 2)) Mult (mk_name "f")]))
                  0)
       /\ (forall a b, (a, b) <> (1, 2) ->
             G_item g' a b = G_item one_edge_net_used a b)
       /\ (forall x, x ∈ G_nodes g' <->
             x ∈ G_nodes one_edge_net_used \/ x = 1 \/ x = 2)
       /\ (forall e, e ∈ G_edges g' <->
             e ∈ G_edges one_edge_net_used \/ e = (1, 2)).
Proof.
  assert (Hwf : wf_graph one_edge_net_used).
  { split; [compute_done|].
    repeat (apply Forall_cons; split; [split; compute_done|]).
    constructor. }
  split; [exact Hwf|]. split.
  - apply (proj1 (add_edge_spec one_edge_net_used 1 2
                    (Some "f.x"%string) Hwf)).
    vm_compute. reflexivity.
  - apply (proj2 (add_edge_spec one_edge_net_used 1 2
                    (Some "2*f"%string) Hwf)).
    vm_compute. reflexivity.
Defined.

(** X6: storing a flow and reading it.  On an edge of the graph [set_flow]
    succeeds; afterwards the edge holds the new flow, [get_cost] without a
    flow argument is the edge's cost function at that flow, the flows and
    costs of the other edges are as before, and so is the network. *)
Theorem set_flow_then_get g u v x d :
  G_item g u v = Ok d ->
  exists g', set_flow g u v x = Ok g'
    /\ get_flow g' u v = Ok x
    /\ get_cost g' u v None = cost (cost_func d) x
    /\ get_cost g' u v None = get_cost g u v (Some x)
    /\ (forall a b, (a, b) <> (u, v) ->
          get_flow g' a b = get_flow g a b
          /\ forall fl, get_cost g' a b fl = get_cost g a b fl)
    /\ network_of g' = network_of g.
Proof.
  intros Hd. destruct (set_flow_Ok g u v x d Hd) as (g' & Hset & Hnew & Hframe).
  exists g'. split; [done|].
  split; [unfold get_flow; by rewrite Hnew|].
  split; [unfold get_cost, get_flow; by rewrite Hnew|].
  split; [unfold get_cost, get_flow; by rewrite Hnew, Hd|].
  split; [|by eapply set_flow_network].
  intros a b Hne. unfold get_cost, get_flow. rewrite Hframe by done. done.
Qed.

Lemma set_flow_then_get_witness :
  G_item one_edge_net 1 2
  = Ok (mk_edge_data (Some "5"%string)
          (Cost (Node Expression [mk_const (CInt 5)])) 0)
  /\ exists g', set_flow one_edge_net 1 2 7 = Ok g'
       /\ get_flow g' 1 2 = Ok 7%float
       /\ get_cost g' 1 2 None
          = cost (Cost (Node Expression [mk_const (CInt 5)])) 7
       /\ get_cost g' 1 2 None = get_cost one_edge_net 1 2 (Some 7%float)
       /\ (forall a b, (a, b) <> (1, 2) ->
             get_flow g' a b = get_flow one_edge_net a b
             /\ forall fl, get_cost g' a b fl = get_cost one_edge_net a b fl)
       /\ network_of g' = network_of one_edge_net.
Proof.
  split; [vm_compute; reflexivity|].
  apply (set_flow_then_get one_edge_net 1 2 7
           (mk_edge_data (Some "5"%string)
              (Cost (Node Expression [mk_const (CInt 5)])) 0)).
  vm_compute. reflexivity.
Defined.

(** X7: an edge that is not in the graph is a [KeyError]: in [get_cost],
    with or without a flow argument, in [set_flow], and in [set_edge_expr]
    when the expression compiles, which then leaves the graph as it was. *)
Theorem missing_edge_is_a_KeyError g u v :
  (u, v) ∉ G_edges g ->
  (forall fl, get_cost g u v fl = Raise KeyError)
  /\ (forall x, set_flow g u v x = Raise KeyError)
  /\ (forall expr c, compile_cost_expr expr = Ok c ->
        set_edge_expr g u v expr = (Raise KeyError, g)).
Proof.
  intros Hout.
  assert (Hitem : G_item g u v = Raise KeyError).
  { destruct (G_item_result g u v) as [[d Hd]|Hd]; [|done].
    destruct Hout. apply G_item_Ok in Hd as (nbrs & Ha & Hb).
    apply elem_of_G_edges. exists nbrs.
    split; [by apply Dict_get_Some_elem|]. apply Dict_get_is_Some. by eexists. }
  split; [|split].
  - intros [x|]; unfold get_cost, get_flow; by rewrite Hitem.
  - intros x. by apply G_setattr_Raise.
  - intros expr c Hc. unfold set_edge_expr. rewrite Hc.
    by rewrite (G_setattr_Raise _ _ _ _ _ Hitem).
Qed.

Lemma missing_edge_is_a_KeyError_witness :
  ((2, 1) ∉ G_edges one_edge_net)
  /\ (forall fl, get_cost one_edge_net 2 1 fl = Raise KeyError)
  /\ (forall x, set_flow one_edge_net 2 1 x = Raise KeyError)
  /\ (forall expr c, compile_cost_expr expr = Ok c ->
        set_edge_expr one_edge_net 2 1 expr = (Raise KeyError, one_edge_net)).
Proof.
  assert (Hout : (2, 1) ∉ G_edges one_edge_net) by compute_done.
  split; [exact Hout|].
  exact (missing_edge_is_a_KeyError one_edge_net 2 1 Hout).
Defined.

(** X8: [reset_flows] forgets the flows and nothing else.  Resetting twice
    is resetting once; two graphs that are the same network reset to the
    same graph, so a flow stored before is gone; and after the reset
    [get_cost] without a flow argument is the cost at flow 0. *)
Theorem reset_flows_forgets_flows g :
  reset_flows (reset_flows g) = reset_flows g
  /\ (forall g', network_of g' = network_of g -> reset_flows g' = reset_flows g)
  /\ (forall u v x g', set_flow g u v x = Ok g' -> reset_flows g' = reset_flows g)
  /\ (forall u v, get_cost (reset_flows g) u v None = get_cost g u v (Some 0%float))
  /\ network_of (reset_flows g) = network_of g.
Proof.
  assert (Hnet : forall g', network_of g' = network_of g ->
            reset_flows g' = reset_flows g).
  { intros g' Hn. by rewrite (reset_flows_network g'), Hn, <- reset_flows_network. }
  split; [apply Hnet, network_of_reset_flows|].
  split; [exact Hnet|].
  split; [intros u v x g' Hs; by eapply Hnet, set_flow_network|].
  split; [|apply network_of_reset_flows].
  intros u v. unfold get_cost, get_flow. rewrite G_item_reset_flows.
  by destruct (G_item g u v).
Qed.

(** *** Removing nodes and edges *)

Lemma Dict_get_map_values {K V W} `{EqDecision K} (f : V -> W)
    (d : Dict.t K V) x :
  Dict.get (map (fun '(u, nbrs) => (u, f nbrs)) d) x = f <$> Dict.get d x.
Proof.
  induction d as [|[k v] d IH]; simpl; [done|].
  by destruct (decide (k = x)).
Qed.

Lemma dict_delete_item {K V} `{EqDecision K} (d : Dict.t K V) k x :
  Dict.item (dict_delete d k) x
  = if decide (x = k) then Raise KeyError else Dict.item d x.
Proof.
  unfold Dict.item. rewrite dict_delete_get. by destruct (decide (x = k)).
Qed.

Lemma G_edges_cons u nbrs (g : TrafficGraph) :
  G_edges ((u, nbrs) :: g) = map (fun '(v, _) => (u, v)) nbrs ++ G_edges g.
Proof. reflexivity. Qed.

Lemma edges_of_removed (n : Z) (nbrs : Dict.t Z edge_data) :
  filter (fun e : edge => e.1 <> n /\ e.2 <> n)
    (map (fun '(v, _) => (n, v)) nbrs) = [].
Proof.
  induction nbrs as [|[k d] nbrs IH]; simpl; [done|].
  rewrite filter_cons. simpl. rewrite decide_False by tauto. done.
Qed.

Lemma edges_of_kept (u n : Z) (nbrs : Dict.t Z edge_data) :
  u <> n ->
  filter (fun e : edge => e.1 <> n /\ e.2 <> n)
    (map (fun '(v, _) => (u, v)) nbrs)
  = map (fun '(v, _) => (u, v)) (dict_delete nbrs n).
Proof.
  intros Hu. induction nbrs as [|[k d] nbrs IH]; simpl; [done|].
  rewrite filter_cons. simpl. destruct (decide (k = n)) as [->|Hne].
  - rewrite decide_False by tauto. done.
  - rewrite decide_True by tauto. simpl. by rewrite IH.
Qed.

Lemma G_remove_node_edges (g : TrafficGraph) n :
  G_edges (map (fun '(u, nbrs) => (u, dict_delete nbrs n)) (dict_delete g n))
  = filter (fun e : edge => e.1 <> n /\ e.2 <> n) (G_edges g).
Proof.
  induction g as [|[u nbrs] g IH]; [done|].
  rewrite G_edges_cons, filter_app. simpl.
  destruct (decide (u = n)) as [->|Hne].
  - by rewrite IH, edges_of_removed.
  - by rewrite map_cons, G_edges_cons, IH, edges_of_kept.
Qed.

(** X9: [remove_node] raises [NetworkXError] for a node that is not there.
    Otherwise exactly the node and the edges from and to it go, in place:
    the other nodes and edges keep their order and their data. *)
Theorem remove_node_spec g n :
  (n ∉ G_nodes g -> remove_node g n = NetworkXError)
  /\ (n ∈ G_nodes g ->
      exists g', remove_node g n = NxOk g'
        /\ G_nodes g' = filter (fun x => x <> n) (G_nodes g)
        /\ G_edges g' = filter (fun e : edge => e.1 <> n /\ e.2 <> n) (G_edges g)
        /\ (forall a b, a <> n -> b <> n -> G_item g' a b = G_item g a b)
        /\ (forall a b, a = n \/ b = n -> G_item g' a b = Raise KeyError)).
Proof.
  unfold remove_node, G_remove_node, G_nodes, Dict.contains. split.
  - intros Hout. apply Dict_get_None in Hout. by rewrite Hout.
  - intros Hin. apply Dict_get_is_Some in Hin as [nb Hnb]. rewrite Hnb.
    eexists. split; [reflexivity|].
    assert (Hitem : forall a b,
      G_item (map (fun '(u, nbrs) => (u, dict_delete nbrs n)) (dict_delete g n)) a b
      = if decide (a = n) then Raise KeyError
        else if decide (b = n) then Raise KeyError else G_item g a b).
    { intros a b. rewrite !G_item_alt, Dict_get_map_values, dict_delete_get.
      destruct (decide (a = n)) as [->|Ha]; [done|].
      destruct (Dict.get g a) as [nbrs|]; simpl.
      - apply dict_delete_item.
      - by destruct (decide (b = n)). }
    split; [|split; [apply G_remove_node_edges|split]].
    + rewrite <- dict_delete_keys. unfold Dict.keys. rewrite map_map.
      apply map_ext. by intros [].
    + intros a b Ha Hb. by rewrite Hitem, !decide_False.
    + intros a b [-> | ->]; rewrite Hitem.
      * by rewrite decide_True.
      * destruct (decide (a = n)); [done|by rewrite decide_True].
Qed.

Lemma fold_max_ge (l : list Z) (x : Z) :
  x <= fold_left Z.max l x /\ forall y, y ∈ l -> y <= fold_left Z.max l x.
Proof.
  revert x. induction l as [|a l IH]; intros x; simpl.
  - split; [lia|]. by intros y ?%elem_of_nil.
  - destruct (IH (Z.max x a)) as [H1 H2]. split; [lia|].
    intros y [->|Hy]%elem_of_cons; [lia|auto].
Qed.

Lemma window_add_node_facts g :
  (fst (MainWindow.add_node g) ∉ G_nodes g)
  /\ (forall x, x ∈ G_nodes g -> x < fst (MainWindow.add_node g))
  /\ (G_nodes g = [] -> fst (MainWindow.add_node g) = 1)
  /\ G_nodes (snd (MainWindow.add_node g))
     = G_nodes g ++ [fst (MainWindow.add_node g)]
  /\ G_edges (snd (MainWindow.add_node g)) = G_edges g
  /\ forall a b, G_item (snd (MainWindow.add_node g)) a b = G_item g a b.
Proof.
  unfold MainWindow.add_node. simpl.
  set (nid := match G_nodes g with [] => 1 | x :: l => fold_left Z.max l x + 1 end).
  assert (Habove : forall x, x ∈ G_nodes g -> x < nid).
  { unfold nid. destruct (G_nodes g) as [|x0 l]; [by intros x ?%elem_of_nil|].
    destruct (fold_max_ge l x0) as [H1 H2].
    intros x [->|Hx]%elem_of_cons; [lia|]. specialize (H2 x Hx). lia. }
  assert (Hfresh : nid ∉ G_nodes g) by (intros Hin; apply Habove in Hin; lia).
  split; [done|]. split; [done|].
  split; [unfold nid; by intros ->|].
  unfold add_node, G_add_node, Dict.contains.
  pose proof Hfresh as Hnone. apply Dict_get_None in Hnone. rewrite Hnone.
  split; [by apply Dict_keys_set_absent|].
  split.
  - rewrite Dict_set_absent by done. unfold G_edges.
    rewrite flat_map_app. simpl. by rewrite app_nil_r.
  - intros a b. rewrite !G_item_alt, Dict_get_set.
    destruct (decide (a = nid)) as [->|]; [by rewrite Hnone|done].
Qed.

(** X10: the id that the window gives a new node is 1 on the empty graph and
    otherwise one more than the largest id, so it is above every node of
    the graph and in particular new; the node goes to the end of the node
    list and the edges stay as they are. *)
Theorem window_add_node_is_fresh g :
  (fst (MainWindow.add_node g) ∉ G_nodes g)
  /\ (forall x, x ∈ G_nodes g -> x < fst (MainWindow.add_node g))
  /\ (G_nodes g = [] -> fst (MainWindow.add_node g) = 1)
  /\ G_nodes (snd (MainWindow.add_node g))
     = G_nodes g ++ [fst (MainWindow.add_node g)]
  /\ G_edges (snd (MainWindow.add_node g)) = G_edges g
  /\ forall a b, G_item (snd (MainWindow.add_node g)) a b = G_item g a b.
Proof. apply window_add_node_facts. Qed.

Lemma fold_max_le (l : list Z) (x b : Z) :
  x <= b -> (forall y, y ∈ l -> y <= b) -> fold_left Z.max l x <= b.
Proof.
  revert x. induction l as [|a l IH]; intros x Hx Hl; simpl; [done|].
  apply IH; [|intros y Hy; apply Hl; by right].
  assert (a <= b) by (apply Hl; by left). lia.
Qed.

(** X27: nodes added through the window to an empty graph are numbered in
    turn: after [n] additions the nodes are [1, 2, ..., n], in this
    order. *)
Theorem window_numbers_nodes_in_turn (n : nat) :
  G_nodes (Nat.iter n (fun g => snd (MainWindow.add_node g)) [])
  = map Z.of_nat (seq 1 n).
Proof.
  induction n as [|n IH]; [done|].
  rewrite Nat.iter_succ.
  set (g := Nat.iter n (fun g => snd (MainWindow.add_node g)) []) in *.
  destruct (window_add_node_facts g) as (_ & Habove & Hfirst & Hnodes & _).
  cbn beta.
  rewrite Hnodes, IH, seq_S, map_app. f_equal. cbn [map Nat.add]. f_equal.
  destruct n as [|n]; [by apply Hfirst|].
  unfold MainWindow.add_node. cbn [fst]. rewrite IH.
  cbn [seq map].
  assert (Hmax : fold_left Z.max (map Z.of_nat (seq 2 n)) (Z.of_nat 1)
                 = Z.of_nat (S n)).
  { apply Z.le_antisymm.
    - apply fold_max_le; [lia|]. intros y Hy.
      apply list_elem_of_fmap in Hy as (k & -> & Hk).
      apply elem_of_seq in Hk. lia.
    - destruct n as [|n]; [simpl; lia|].
      apply fold_max_ge. apply list_elem_of_fmap. exists (S (S n)).
      split; [done|]. apply elem_of_seq. lia. }
  rewrite Hmax. lia.
Qed.

(** X11: the window's [_remove_edge] never raises, since it asks
    [has_edge] first, where [G.remove_edge] alone raises on a missing edge.
    Afterwards the edge is not in the graph, every other edge has its data,
    and the nodes are the same, the end nodes of the edge included. *)
Theorem window_remove_edge_spec g u v :
  exists g', MainWindow._remove_edge g u v = NxOk g'
    /\ G_has_edge g' u v = false
    /\ G_item g' u v = Raise KeyError
    /\ (forall a b, (a, b) <> (u, v) -> G_item g' a b = G_item g a b)
    /\ G_nodes g' = G_nodes g
    /\ (G_has_edge g u v = false ->
          g' = g /\ G_remove_edge g u v = NetworkXError).
Proof.
  unfold MainWindow._remove_edge, G_remove_edge, G_has_edge, Dict.contains.
  destruct (Dict.get g u) as [nbrs|] eqn:Hu.
  - destruct (Dict.get nbrs v) as [d|] eqn:Hv.
    + eexists. split; [reflexivity|]. rewrite Dict_get_set_eq, dict_delete_get.
      rewrite decide_True by done. split; [done|].
      split; [rewrite G_item_alt, Dict_get_set_eq; simpl;
              rewrite dict_delete_item; by rewrite decide_True|].
      split; [|split; [|done]].
      * intros a b Hne. rewrite !G_item_alt, Dict_get_set.
        destruct (decide (a = u)) as [->|Ha]; [|done]. rewrite Hu. simpl.
        rewrite dict_delete_item. rewrite decide_False; [done|congruence].
      * apply Dict_keys_set_present. apply Dict_get_is_Some. by eexists.
    + exists g. split; [done|]. rewrite Hu, Hv. split; [done|].
      split; [rewrite G_item_alt, Hu; simpl; unfold Dict.item; by rewrite Hv|].
      done.
  - exists g. split; [done|]. rewrite Hu. split; [done|].
    split; [rewrite G_item_alt, Hu; done|]. done.
Qed.

(** X12: the invariant of a networkx graph (every node listed once, every
    successor of a node listed once and itself a node) holds of the empty
    graph and is kept by every operation on the graph: [add_node],
    [add_edge], [set_edge_expr], [set_flow], [reset_flows], [remove_node],
    the window's [add_node] and [_remove_edge], and a run of the solver. *)
Theorem wf_graph_is_kept :
  wf_graph []
  /\ forall g, wf_graph g ->
       (forall n, wf_graph (add_node g n))
       /\ (forall u v expr, wf_graph (snd (add_edge g u v expr)))
       /\ (forall u v expr, wf_graph (snd (set_edge_expr g u v expr)))
       /\ (forall u v x g', set_flow g u v x = Ok g' -> wf_graph g')
       /\ wf_graph (reset_flows g)
       /\ (forall n g', remove_node g n = NxOk g' -> wf_graph g')
       /\ wf_graph (snd (MainWindow.add_node g))
       /\ (forall u v g', MainWindow._remove_edge g u v = NxOk g' -> wf_graph g')
       /\ (forall np_dot nx_shortest_path demands max_iter tol,
             wf_graph (snd (frank_wolfe_assignment np_dot nx_shortest_path
                              g demands max_iter tol))).
Proof.
  split; [split; constructor|]. intros g Hwf.
  split; [intros n; by apply wf_G_add_node|].
  split; [intros u v expr; by apply wf_add_edge|].
  split.
  { intros u v expr. unfold set_edge_expr.
    destruct (compile_cost_expr expr) as [c| |]; [|done|done].
    destruct (G_setattr g u v _) as [g1| |] eqn:H1; [|done|done].
    apply G_setattr_shape in H1.
    destruct (G_setattr g1 u v _) as [g2| |] eqn:H2; simpl.
    - apply G_setattr_shape in H2. apply (wf_graph_shape g); [congruence|done].
    - by apply (wf_graph_shape g).
    - by apply (wf_graph_shape g). }
  split.
  { intros u v x g' Hs. apply (wf_graph_shape g); [|done].
    symmetry. by eapply G_setattr_shape. }
  split.
  { apply (wf_graph_shape g); [|done].
    symmetry. apply shape_network, network_of_reset_flows. }
  split; [intros n g'; by apply wf_G_remove_node|].
  split; [by apply wf_G_add_node|].
  split.
  { intros u v g'. unfold MainWindow._remove_edge.
    destruct (G_has_edge g u v); [by apply wf_G_remove_edge|].
    by intros [= <-]. }
  intros np_dot nx_shortest_path demands max_iter tol.
  apply (wf_graph_shape g); [|done].
  symmetry. apply shape_network, frank_wolfe_keeps_network.
Qed.

(** ** The solver *)

Section FurtherSolver.
Variable np_dot : vec -> vec -> float.
Variable nx_shortest_path : wdigraph -> Z -> Z -> result (list Z).
Variable py_sum : list float -> float.

(** *** The cost vector *)

Lemma costs_loop g (fvec : vec) (items : list (edge * nat)) (c0 : vec) :
  NoDup (map snd items) ->
  (forall u v i, ((u, v), i) ∈ items ->
     (i < length c0)%nat
     /\ exists x y, fvec !! i = Some x /\ get_cost g u v (Some x) = Ok y) ->
  exists c,
    for_each (fun c '((u, v), idx) =>
                x ← getitem fvec idx;
                y ← get_cost g u v (Some x);
                setitem c idx y)
      items c0 = Ok c
    /\ length c = length c0
    /\ (forall u v i, ((u, v), i) ∈ items ->
          exists x y, fvec !! i = Some x
            /\ get_cost g u v (Some x) = Ok y /\ c !! i = Some y)
    /\ (forall j, j ∉ map snd items -> c !! j = c0 !! j).
Proof.
  revert c0. induction items as [|[[u v] i] items IH]; intros c0 Hnd Hok.
  - exists c0. split; [done|]. split; [done|].
    split; [by intros ??? ?%elem_of_nil|done].
  - apply NoDup_cons in Hnd as [Hi Hnd].
    destruct (Hok u v i) as (Hlt & x & y & Hx & Hy); [by left|].
    assert (Hstep : (x ← getitem fvec i; y ← get_cost g u v (Some x);
                     setitem c0 i y) = Ok (<[i:=y]> c0)).
    { unfold getitem, setitem. rewrite Hx. cbn [mbind result_bind].
      rewrite Hy. cbn [mbind result_bind].
      by rewrite (proj2 (Nat.ltb_lt _ _) Hlt). }
    cbn [for_each]. rewrite Hstep. cbn [mbind result_bind].
    destruct (IH (<[i:=y]> c0) Hnd) as (c & Hrun & Hlen & Hitems & Hrest).
    { intros u' v' i' Hin. rewrite length_insert. apply Hok. by right. }
    exists c. split; [done|]. split; [by rewrite Hlen, length_insert|].
    split.
    + intros u' v' i' [[= -> -> ->]|Hin]%elem_of_cons; [|by apply Hitems].
      exists x, y. split; [done|]. split; [done|].
      rewrite Hrest by done. by apply list_lookup_insert_eq.
    + intros j Hj. apply not_elem_of_cons in Hj as [Hne Hj].
      rewrite Hrest by done. by apply list_lookup_insert_ne.
Qed.

Lemma imap_swap_indices (l : list edge) (n : nat) :
  map snd (imap (fun i e => (e, (n + i)%nat)) l) = seq n (length l).
Proof.
  revert n. induction l as [|e l IH]; intros n; simpl; [done|].
  f_equal; [lia|]. rewrite <- IH. f_equal. apply imap_ext.
  intros; simpl; f_equal; lia.
Qed.

Lemma imap_swap_indices0 (l : list edge) :
  map snd (imap (fun i e => (e, i)) l) = seq 0 (length l).
Proof. apply (imap_swap_indices l 0). Qed.

Lemma edge_index_indices edges :
  NoDup edges -> map snd (make_edge_index edges) = seq 0 (length edges).
Proof.
  intros Hnd. rewrite make_edge_index_NoDup by done.
  apply (imap_swap_indices edges 0).
Qed.

Lemma costs_at_ok g edges (fvec : vec) :
  NoDup edges ->
  (forall i u v, edges !! i = Some (u, v) ->
     exists x y, fvec !! i = Some x /\ get_cost g u v (Some x) = Ok y) ->
  exists c, costs_at g edges fvec = Ok c
    /\ length c = length edges
    /\ forall i u v, edges !! i = Some (u, v) ->
         exists x y, fvec !! i = Some x
           /\ get_cost g u v (Some x) = Ok y /\ c !! i = Some y.
Proof.
  intros Hnd Hok. unfold costs_at.
  destruct (costs_loop g fvec (make_edge_index edges) (zeros (length edges)))
    as (c & Hrun & Hlen & Hitems & _).
  - rewrite edge_index_indices by done. apply NoDup_seq.
  - intros u v i Hin. rewrite make_edge_index_NoDup in Hin by done.
    apply elem_of_imap_swap in Hin. rewrite length_zeros.
    split; [by eapply lookup_lt_Some|by eapply Hok].
  - exists c. split; [exact Hrun|]. split; [by rewrite Hlen, length_zeros|].
    intros i u v Hi. apply Hitems. rewrite make_edge_index_NoDup by done.
    by apply elem_of_imap_swap.
Qed.

(** X13: [costs_at] evaluates every edge's cost function at the component of
    the vector that belongs to the edge: when those evaluations succeed the
    result has one component per edge, and component [i] is the cost of
    edge [i] at flow [fvec[i]], whatever flow is stored on the edge. *)
Theorem costs_at_spec g edges (fvec : vec) :
  NoDup edges ->
  (forall i u v, edges !! i = Some (u, v) ->
     exists x y, fvec !! i = Some x /\ get_cost g u v (Some x) = Ok y) ->
  exists c, costs_at g edges fvec = Ok c
    /\ length c = length edges
    /\ forall i u v, edges !! i = Some (u, v) ->
         exists x y, fvec !! i = Some x
           /\ get_cost g u v (Some x) = Ok y /\ c !! i = Some y.
Proof. intros Hnd Hok. by apply costs_at_ok. Qed.

Lemma costs_at_spec_witness :
  NoDup (G_edges detour_net)
  /\ exists c,
       costs_at detour_net (G_edges detour_net) [4; 0; 0]%float = Ok c
       /\ length c = length (G_edges detour_net)
       /\ forall i u v, G_edges detour_net !! i = Some (u, v) ->
            exists x y, [4; 0; 0]%float !! i = Some x
              /\ get_cost detour_net u v (Some x) = Ok y /\ c !! i = Some y.
Proof.
  assert (Hnd : NoDup (G_edges detour_net)) by compute_done.
  split; [exact Hnd|].
  apply (costs_at_spec detour_net (G_edges detour_net) [4; 0; 0]%float Hnd).
  intros [|[|[|i]]] u v Hi; vm_compute in Hi; simplify_eq.
  - exists 4%float, 4%float. split; vm_compute; reflexivity.
  - exists 0%float, 1%float. split; vm_compute; reflexivity.
  - exists 0%float, 1%float. split; vm_compute; reflexivity.
Defined.

Lemma get_cost_reset_flows g u v x :
  get_cost (reset_flows g) u v (Some x) = get_cost g u v (Some x).
Proof.
  unfold get_cost. cbn [mbind result_bind]. rewrite G_item_reset_flows.
  by destruct (G_item g u v).
Qed.

Lemma lookup_zeros n i : (i < n)%nat -> zeros n !! i = Some 0%float.
Proof. intros Hi. unfold zeros. by apply lookup_replicate_2. Qed.

Lemma costs_at_raise g edges (fvec : vec) k u v x e :
  NoDup edges ->
  edges !! k = Some (u, v) ->
  (forall i a b, (i < k)%nat -> edges !! i = Some (a, b) ->
     exists xi y, fvec !! i = Some xi /\ get_cost g a b (Some xi) = Ok y) ->
  fvec !! k = Some x ->
  get_cost g u v (Some x) = Raise e ->
  costs_at g edges fvec = Raise e.
Proof.
  intros Hnd Hk Hbefore Hx He. unfold costs_at.
  rewrite make_edge_index_NoDup by done.
  pose proof (lookup_lt_Some _ _ _ Hk) as Hklt.
  assert (Hsplit : exists rest,
            imap (fun i (e0 : edge) => (e0, i)) edges
            = imap (fun i (e0 : edge) => (e0, i)) (take k edges)
                ++ ((u, v), k) :: rest).
  { eexists. rewrite <- (take_drop_middle edges k (u, v) Hk) at 1.
    rewrite imap_app. cbn [imap]. rewrite length_take_le by lia.
    by rewrite Nat.add_0_r. }
  destruct Hsplit as [rest ->]. rewrite for_each_app.
  destruct (costs_loop g fvec (imap (fun i e => (e, i)) (take k edges))
              (zeros (length edges))) as (c & Hrun & _).
  - rewrite imap_swap_indices0. apply NoDup_seq.
  - intros a b i Hin. apply elem_of_imap_swap in Hin.
    apply lookup_take_Some in Hin as [Hin Hi]. rewrite length_zeros.
    split; [by eapply lookup_lt_Some|by eapply Hbefore].
  - rewrite Hrun. cbn [mbind result_bind for_each].
    assert (Hstep : (x ← getitem fvec k; y ← get_cost g u v (Some x);
                     setitem c k y) = Raise e).
    { unfold getitem. rewrite Hx. cbn [mbind result_bind]. by rewrite He. }
    by rewrite Hstep.
Qed.

(** X14: [costs_at] fails with the error of the first edge, in the order of
    the edge list, whose cost function fails. *)
Theorem costs_at_first_error g edges (fvec : vec) k u v x e :
  NoDup edges ->
  edges !! k = Some (u, v) ->
  (forall i a b, (i < k)%nat -> edges !! i = Some (a, b) ->
     exists xi y, fvec !! i = Some xi /\ get_cost g a b (Some xi) = Ok y) ->
  fvec !! k = Some x ->
  get_cost g u v (Some x) = Raise e ->
  costs_at g edges fvec = Raise e.
Proof. intros Hnd Hk Hbefore Hx He. by eapply costs_at_raise. Qed.

Lemma costs_at_first_error_witness :
  NoDup (G_edges pole_net)
  /\ costs_at pole_net (G_edges pole_net) [0; 0]%float = Raise ZeroDivisionError.
Proof.
  assert (Hnd : NoDup (G_edges pole_net)) by compute_done.
  split; [exact Hnd|].
  apply (costs_at_first_error pole_net (G_edges pole_net) [0; 0]%float
           1 2 3 0%float ZeroDivisionError Hnd).
  - reflexivity.
  - intros [|i] a b Hi Ha; [|lia]. vm_compute in Ha. simplify_eq.
    exists 0%float, 5%float. split; vm_compute; reflexivity.
  - reflexivity.
  - vm_compute. reflexivity.
Defined.

(** *** The run as a whole *)

Abbreviation solve_with :=
  (frank_wolfe_assignment np_dot nx_shortest_path).

(** When the iteration ends with the vector [fin], the run returns: the
    flows of the graph and the returned mapping are the components of
    [fin]. *)
Lemma solve_returns g demands max_iter tol fin :
  wf_graph g ->
  fw_iterate np_dot nx_shortest_path (reset_flows g) (G_edges g) demands tol
    max_iter = Ok fin ->
  exists ret g',
    solve_with g demands max_iter tol = (Ok ret, g')
    /\ network_of g' = network_of g
    /\ Dict.keys ret = G_edges g
    /\ forall i u v, G_edges g !! i = Some (u, v) ->
         exists x, fin !! i = Some x
           /\ get_flow g' u v = Ok x /\ Dict.get ret (u, v) = Some x.
Proof.
  intros Hwf Hit. pose proof (wf_graph_edges_NoDup g Hwf) as Hnd.
  destruct Hwf as [Hkeys _].
  assert (Hreset : forall u v, (u, v) ∈ G_edges g ->
            exists d, G_item (reset_flows g) u v = Ok d).
  { intros u v Hin. destruct (G_item_of_edge g u v Hkeys Hin) as [d Hd].
    eexists. by rewrite G_item_reset_flows, Hd. }
  unfold frank_wolfe_assignment. rewrite Hit.
  apply fw_iterate_length in Hit.
  destruct (write_flows_spec (reset_flows g) (make_edge_index (G_edges g)) fin)
    as (g' & Hrun & Hset & _).
  { fold (Dict.keys (make_edge_index (G_edges g))).
    by rewrite edge_index_keys. }
  { intros u v i Hin. rewrite make_edge_index_NoDup in Hin by done.
    apply elem_of_imap_swap in Hin. split.
    - apply Hreset. by eapply list_elem_of_lookup_2.
    - rewrite Hit. by eapply lookup_lt_Some. }
  rewrite Hrun.
  assert (Hflow : forall i u v, G_edges g !! i = Some (u, v) ->
            exists x, fin !! i = Some x /\ get_flow g' u v = Ok x).
  { intros i u v Hl. apply Hset. rewrite make_edge_index_NoDup by done.
    by apply elem_of_imap_swap. }
  destruct (flows_of_spec g' (G_edges g) []) as (ret & Hret & Hin & _).
  { intros u v (i & Hl)%list_elem_of_lookup_1.
    destruct (Hflow i u v Hl) as (x & _ & Hx). by exists x. }
  exists ret, g'. unfold flows_of. rewrite Hret. split; [done|].
  split; [|split].
  - pose proof (write_flows_network (reset_flows g)
                  (make_edge_index (G_edges g)) fin) as Hnet.
    rewrite Hrun in Hnet. simpl in Hnet.
    by rewrite Hnet, network_of_reset_flows.
  - by apply (flows_of_keys g' _ []).
  - intros i u v Hl. destruct (Hflow i u v Hl) as (x & Hx & Hg).
    exists x. split; [done|]. split; [done|].
    destruct (Hin u v) as (x' & Hx' & Hget);
      [by eapply list_elem_of_lookup_2|].
    congruence.
Qed.

(** X15: a cost expression that fails at flow 0 fails every run: the run
    raises the error of the first such edge before any path is looked for,
    and the graph is left with all flows reset to 0, the flows of an
    earlier run being lost. *)
Theorem failing_cost_fails_the_run g demands max_iter tol k u v e :
  wf_graph g ->
  G_edges g !! k = Some (u, v) ->
  (forall i a b, (i < k)%nat -> G_edges g !! i = Some (a, b) ->
     exists y, get_cost g a b (Some 0%float) = Ok y) ->
  get_cost g u v (Some 0%float) = Raise e ->
  solve_with g demands max_iter tol = (Raise e, reset_flows g).
Proof.
  intros Hwf Hk Hbefore He.
  pose proof (wf_graph_edges_NoDup g Hwf) as Hnd.
  pose proof (lookup_lt_Some _ _ _ Hk) as Hklt.
  assert (Hc : costs_at (reset_flows g) (G_edges g) (zeros (length (G_edges g)))
               = Raise e).
  { apply (costs_at_raise _ _ _ k u v 0%float); try done.
    - intros i a b Hi Ha. exists 0%float.
      destruct (Hbefore i a b Hi Ha) as [y Hy]. exists y.
      split; [apply lookup_zeros; lia|by rewrite get_cost_reset_flows].
    - by apply lookup_zeros.
    - by rewrite get_cost_reset_flows. }
  unfold frank_wolfe_assignment, fw_iterate. by rewrite Hc.
Qed.

(** X16: with an iteration cap of 0 the run returns the all-or-nothing
    assignment at the costs of zero flow: the loop body never runs and the
    seed is written to the graph and returned. *)
Theorem no_iterations_gives_aon_seed g demands tol c0 y :
  wf_graph g ->
  costs_at (reset_flows g) (G_edges g) (zeros (length (G_edges g))) = Ok c0 ->
  aon nx_shortest_path (G_edges g) demands c0 = Ok y ->
  exists ret g',
    solve_with g demands 0 tol = (Ok ret, g')
    /\ Dict.keys ret = G_edges g
    /\ forall i u v, G_edges g !! i = Some (u, v) ->
         exists x, y !! i = Some x
           /\ get_flow g' u v = Ok x /\ Dict.get ret (u, v) = Some x.
Proof.
  intros Hwf Hc Hy.
  destruct (solve_returns g demands 0 tol y Hwf) as (ret & g' & Hs & _ & Hk & Hf).
  { unfold fw_iterate. rewrite Hc. cbn [mbind result_bind]. by rewrite Hy. }
  by exists ret, g'.
Qed.

Lemma vsub_zeros n : vsub (zeros n) (zeros n) = zeros n.
Proof.
  unfold vsub, zeros. induction n as [|n IH]; [done|].
  cbn [replicate zip_with]. rewrite IH. f_equal.
Qed.

(** X17: without demands nothing flows.  When every edge's cost can be
    evaluated at flow 0, and the norm of the zero vector is below the
    tolerance or the iteration cap is 0, the run returns flow 0 for every
    edge and stores it. *)
Theorem no_demand_no_flow g max_iter tol :
  wf_graph g ->
  (forall u v, (u, v) ∈ G_edges g ->
     exists y, get_cost g u v (Some 0%float) = Ok y) ->
  max_iter = 0%nat
  \/ (np_linalg_norm np_dot (zeros (length (G_edges g))) <? tol)%float = true ->
  exists ret g',
    solve_with g [] max_iter tol = (Ok ret, g')
    /\ Dict.keys ret = G_edges g
    /\ forall u v, (u, v) ∈ G_edges g ->
         get_flow g' u v = Ok 0%float /\ Dict.get ret (u, v) = Some 0%float.
Proof.
  intros Hwf Hcost Hstop.
  pose proof (wf_graph_edges_NoDup g Hwf) as Hnd.
  set (m := length (G_edges g)) in *.
  destruct (costs_at_ok (reset_flows g) (G_edges g) (zeros m) Hnd)
    as (c0 & Hc0 & Hlen & _).
  { intros i u v Hi. exists 0%float.
    destruct (Hcost u v) as [y Hy]; [by eapply list_elem_of_lookup_2|].
    exists y. split; [|by rewrite get_cost_reset_flows].
    apply lookup_zeros. by eapply lookup_lt_Some. }
  assert (Haon : aon nx_shortest_path (G_edges g) [] c0 = Ok (zeros m)).
  { unfold aon. rewrite aon_graph_Ok by lia. reflexivity. }
  destruct (solve_returns g [] max_iter tol (zeros m) Hwf)
    as (ret & g' & Hs & _ & Hk & Hf).
  { unfold fw_iterate. fold m. rewrite Hc0. cbn [mbind result_bind].
    rewrite Haon. cbn [mbind result_bind].
    destruct max_iter as [|n]; [done|]. destruct Hstop as [?|Hstop]; [done|].
    cbn [fw_loop]. fold m. rewrite Hc0. cbn [mbind result_bind].
    rewrite Haon. cbn [mbind result_bind]. by rewrite vsub_zeros, Hstop. }
  exists ret, g'. split; [done|]. split; [done|].
  intros u v (i & Hi)%list_elem_of_lookup_1.
  destruct (Hf i u v Hi) as (x & Hx & Hg & Hr).
  rewrite lookup_zeros in Hx by (by eapply lookup_lt_Some).
  by simplify_eq.
Qed.

(** *** The line search *)

Lemma golden_rounds_all g edges f d (P : float -> float -> bool) rounds :
  forall a b ab',
    all_brackets P (length rounds) a b = true ->
    for_each (golden_round np_dot g edges f d) rounds (a, b) = Ok ab' ->
    P ab'.1 ab'.2 = true.
Proof.
  induction rounds as [|r rounds IH]; intros a b ab' Hall; cbn [for_each].
  - by intros [= <-].
  - intros (ab1 & Hstep & Hrun)%bind_Ok.
    cbn [length all_brackets] in Hall. apply andb_prop in Hall as [H1 H2].
    unfold golden_round in Hstep.
    apply bind_Ok in Hstep as (o1 & _ & Hstep).
    apply bind_Ok in Hstep as (o2 & _ & Hstep).
    destruct (o1 <? o2)%float; injection Hstep as <-;
      [apply (IH _ _ _ H1 Hrun)|apply (IH _ _ _ H2 Hrun)].
Qed.

(** X18: whatever the objective's values are, a step that [line_search]
    returns lies strictly between 0 and 1, so that the next iterate lies
    between the current flows and the all-or-nothing target; it is the
    midpoint of a bracket inside [0, 1] that 20 rounds have narrowed to
    less than [2^-13]. *)
Theorem line_search_step_is_inside g edges f d alpha :
  line_search np_dot g edges f d = Ok alpha ->
  (0 <? alpha)%float = true /\ (alpha <? 1)%float = true
  /\ exists a b, alpha = ((a + b) / 2)%float
       /\ (0 <=? a)%float = true /\ (a <? b)%float = true
       /\ (b <=? 1)%float = true /\ (b - a <? 0x1p-13)%float = true.
Proof.
  unfold line_search. intros ([a b] & Hrun & [= <-])%bind_Ok.
  apply (golden_rounds_all _ _ _ _ narrow_bracket) in Hrun;
    [|vm_compute; reflexivity].
  unfold narrow_bracket in Hrun. simpl in Hrun.
  repeat (apply andb_prop in Hrun as [Hrun ?]).
  split; [done|]. split; [done|]. exists a, b. done.
Qed.

(** *** All-or-nothing and travel times never fail on a path query *)

(** X19: [aon] does not raise, whatever [nx.shortest_path] returns or
    raises, as long as there is a cost for every edge: a query that raises
    is skipped, and so is the rest of a path that leaves the edge list. *)
Theorem aon_never_raises edges demands costs :
  (length edges <= length costs)%nat ->
  (forall H o d, nx_shortest_path H o d <> OutsideModel) ->
  exists y, aon nx_shortest_path edges demands costs = Ok y
    /\ length y = length edges.
Proof.
  intros Hlen Hsp. unfold aon. rewrite aon_graph_Ok by done.
  cbn [mbind result_bind].
  assert (Hrun : forall y0, exists y,
    for_each (aon_demand nx_shortest_path edges
                (nx_add_edges nx_empty (zip edges costs))) demands y0 = Ok y).
  { induction demands as [|[[o d] q] demands IH]; intros y0; [by exists y0|].
    cbn [for_each].
    assert (exists y1, aon_demand nx_shortest_path edges
              (nx_add_edges nx_empty (zip edges costs)) y0 (o, d, q) = Ok y1)
      as [y1 ->].
    { unfold aon_demand.
      destruct (nx_shortest_path _ o d) eqn:Hq; [by eexists|by eexists|].
      by apply Hsp in Hq. }
    apply IH. }
  destruct (Hrun (zeros (length edges))) as [y Hy]. exists y.
  split; [done|]. apply (aon_length nx_shortest_path edges demands costs).
  unfold aon. rewrite aon_graph_Ok by done. exact Hy.
Qed.

Lemma for_each_steps {A S} (body : S -> A -> result S) xs s s' x :
  for_each body xs s = Ok s' -> x ∈ xs -> exists s1 s2, body s1 x = Ok s2.
Proof.
  revert s. induction xs as [|a xs IH]; intros s; simpl.
  - by intros _ ?%elem_of_nil.
  - intros (s1 & Hstep & Hrun)%bind_Ok [->|Hin]%elem_of_cons; [by eauto|].
    by eapply IH.
Qed.

Lemma travel_graph_costs g H a b d :
  travel_graph g = Ok H -> G_item g a b = Ok d ->
  exists c, get_cost g a b (Some (flow d)) = Ok c.
Proof.
  intros Hrun Hd.
  assert (Hin : (a, b) ∈ G_edges g).
  { apply G_item_Ok in Hd as (nbrs & Ha & Hb). apply elem_of_G_edges.
    exists nbrs. split; [by apply Dict_get_Some_elem|].
    apply Dict_get_is_Some. by eexists. }
  destruct (for_each_steps _ _ _ _ _ Hrun Hin) as (H1 & H2 & Hstep).
  cbn beta iota in Hstep. rewrite Hd in Hstep. cbn [mbind result_bind] in Hstep.
  apply bind_Ok in Hstep as (c & Hc & _). by exists c.
Qed.

Lemma od_total_cost_defined g H o d :
  travel_graph g = Ok H ->
  nx_shortest_path H o d <> OutsideModel ->
  od_total_cost nx_shortest_path py_sum g H o d <> OutsideModel.
Proof.
  intros Hrun Hsp. unfold od_total_cost.
  destruct (nx_shortest_path H o d) as [p| |]; [|done|done].
  cbn [mbind result_bind].
  assert (Hloop : forall pairs acc,
    for_each (fun acc '(a, b) =>
                e ← G_item g a b;
                c ← get_cost g a b (Some (flow e));
                Ok (acc ++ [c])) pairs acc <> OutsideModel).
  { induction pairs as [|[a b] pairs IH]; intros acc; [done|].
    cbn [for_each]. destruct (G_item_result g a b) as [[e He]|He];
      rewrite He; cbn [mbind result_bind]; [|done].
    destruct (travel_graph_costs g H a b e Hrun He) as [c ->].
    cbn [mbind result_bind]. apply IH. }
  specialize (Hloop (path_edges p) []).
  destruct (for_each _ _ _); done.
Qed.

(** X20: once the weighted graph is built, [compute_od_travel_times] does
    not raise, whatever [nx.shortest_path] returns or raises: the result has
    an entry for the pair of every demand and for no other pair. *)
Theorem travel_times_cover_the_demands g demands Ht :
  travel_graph g = Ok Ht ->
  (forall o d, nx_shortest_path Ht o d <> OutsideModel) ->
  exists m, compute_od_travel_times nx_shortest_path py_sum g demands = Ok m
    /\ forall o d, is_Some (Dict.get m (o, d)) <-> exists q, (o, d, q) ∈ demands.
Proof.
  intros Hrun Hsp. unfold compute_od_travel_times. rewrite Hrun.
  cbn [mbind result_bind].
  assert (Hloop : forall acc, exists m,
    for_each (fun od_costs '(o, d, _) =>
                match od_total_cost nx_shortest_path py_sum g Ht o d with
                | Ok total_cost => Ok (Dict.set od_costs (o, d) (Some total_cost))
                | Raise _ => Ok (Dict.set od_costs (o, d) None)
                | OutsideModel => OutsideModel
                end) demands acc = Ok m
    /\ forall o d, is_Some (Dict.get m (o, d)) <->
         is_Some (Dict.get acc (o, d)) \/ exists q, (o, d, q) ∈ demands).
  { induction demands as [|[[o' d'] q'] demands IH]; intros acc.
    - exists acc. split; [done|]. intros o d. split; [by left|].
      intros [?|[q Hq]]; [done|]. by apply elem_of_nil in Hq.
    - cbn [for_each].
      pose proof (od_total_cost_defined g Ht o' d' Hrun (Hsp o' d')) as Hdef.
      assert (exists r, match od_total_cost nx_shortest_path py_sum g Ht o' d' with
                | Ok total_cost => Ok (Dict.set acc (o', d') (Some total_cost))
                | Raise _ => Ok (Dict.set acc (o', d') None)
                | OutsideModel => OutsideModel
                end = Ok (Dict.set acc (o', d') r)) as [r ->].
      { destruct (od_total_cost _ _ _ _ _ _); [by eexists|by eexists|done]. }
      cbn [mbind result_bind].
      destruct (IH (Dict.set acc (o', d') r)) as (m & Hm & Hkeys).
      exists m. split; [done|]. intros o d. rewrite Hkeys, Dict_get_set.
      destruct (decide ((o, d) = (o', d'))) as [[= -> ->]|Hne].
      + split; [intros _; right; exists q'; by left|]. intros _. left. by eexists.
      + split.
        * intros [?|[q Hq]]; [by left|]. right. exists q. by right.
        * intros [?|[q Hq]]; [by left|]. right. exists q.
          apply elem_of_cons in Hq as [[= -> -> ->]|?]; done. }
  destruct (Hloop []) as (m & Hm & Hkeys). exists m. split; [done|].
  intros o d. rewrite Hkeys. split; [|by right].
  intros [[? [=]]|?]; done.
Qed.

(** *** The travel time of a pair with a path *)

Lemma travel_loop g l H0 H :
  for_each (fun H '(u, v) =>
              d ← G_item g u v;
              c ← get_cost g u v (Some (flow d));
              Ok (nx_add_edge H u v c)) l H0 = Ok H ->
  exists ws, length ws = length l
    /\ H = nx_add_edges H0 (zip l ws)
    /\ forall i u v, l !! i = Some (u, v) ->
         exists d c, G_item g u v = Ok d
           /\ get_cost g u v (Some (flow d)) = Ok c /\ ws !! i = Some c.
Proof.
  revert H0 H; induction l as [|[u v] l IH]; intros H0 H; cbn [for_each].
  - intros [= <-]. exists []. split; [done|]. split; [done|]. by intros [|?].
  - intros (H1 & Hadd & Hrun)%bind_Ok.
    apply bind_Ok in Hadd as (d & Hd & Hadd).
    apply bind_Ok in Hadd as (c & Hc & [= <-]).
    apply IH in Hrun as (ws & Hlen & -> & Hws).
    exists (c :: ws). split; [simpl; lia|]. split; [done|].
    intros [|i] u' v'; simpl.
    + intros [= <- <-]. by exists d, c.
    + apply Hws.
Qed.

Lemma travel_graph_weights g H a b w :
  wf_graph g -> travel_graph g = Ok H ->
  nx_weight H a b = Some w ->
  exists d, G_item g a b = Ok d /\ get_cost g a b (Some (flow d)) = Ok w.
Proof.
  intros Hwf Hrun Hw. pose proof (wf_graph_edges_NoDup g Hwf) as Hnd.
  apply travel_loop in Hrun as (ws & Hlen & -> & Hws).
  assert (Hin : (a, b) ∈ G_edges g).
  { assert (Hs : is_Some (nx_weight (nx_add_edges nx_empty (zip (G_edges g) ws)) a b))
      by (by eexists).
    apply nx_weight_add_edges_is_Some in Hs as [[? Hs]|Hs]; [done|].
    by rewrite fst_zip_edges in Hs. }
  apply list_elem_of_lookup_1 in Hin as [i Hi].
  rewrite (aon_graph_weights _ _ i a b Hnd Hlen Hi) in Hw.
  destruct (Hws i a b Hi) as (d & c & Hd & Hc & Hwi).
  exists d. split; [done|]. congruence.
Qed.




(** *** Raising the iteration cap *)

Lemma fw_loop_converged g edges demands tol n k f fin c y :
  fw_loop np_dot nx_shortest_path g edges demands tol n f = Ok fin ->
  costs_at g edges fin = Ok c ->
  aon nx_shortest_path edges demands c = Ok y ->
  (np_linalg_norm np_dot (vsub y fin) <? tol)%float = true ->
  fw_loop np_dot nx_shortest_path g edges demands tol (n + k) f = Ok fin.
Proof.
  revert f. induction n as [|n IH]; intros f Hrun Hc Hy Htest.
  - cbn [fw_loop] in Hrun. injection Hrun as ->.
    destruct k as [|k]; [done|]. cbn [Nat.add fw_loop].
    rewrite Hc. cbn [mbind result_bind]. rewrite Hy. cbn [mbind result_bind].
    by rewrite Htest.
  - cbn [Nat.add fw_loop] in Hrun |- *.
    destruct (costs_at g edges f) as [cf| |]; [|done|done].
    cbn [mbind result_bind] in Hrun |- *.
    destruct (aon nx_shortest_path edges demands cf) as [yf| |]; [|done|done].
    cbn [mbind result_bind] in Hrun |- *.
    destruct (np_linalg_norm np_dot (vsub yf f) <? tol)%float; [done|].
    destruct (line_search np_dot g edges f (vsub yf f)) as [alpha| |];
      [|done|done].
    cbn [mbind result_bind] in Hrun |- *. by apply IH.
Qed.

(** X22: a run that ended because the norm test passed at its last vector
    [fin] gives the same result under every larger iteration cap. *)
Theorem converged_run_ignores_the_cap g demands tol n k fin c y :
  fw_iterate np_dot nx_shortest_path (reset_flows g) (G_edges g) demands tol n
  = Ok fin ->
  costs_at (reset_flows g) (G_edges g) fin = Ok c ->
  aon nx_shortest_path (G_edges g) demands c = Ok y ->
  (np_linalg_norm np_dot (vsub y fin) <? tol)%float = true ->
  solve_with g demands (n + k) tol = solve_with g demands n tol.
Proof.
  intros Hit Hc Hy Htest.
  assert (Hit' : fw_iterate np_dot nx_shortest_path (reset_flows g) (G_edges g)
                   demands tol (n + k) = Ok fin).
  { unfold fw_iterate in *.
    destruct (costs_at _ _ (zeros _)) as [c0| |]; [|done|done].
    cbn [mbind result_bind] in *.
    destruct (aon nx_shortest_path (G_edges g) demands c0) as [f0| |];
      [|done|done].
    cbn [mbind result_bind] in *. by eapply fw_loop_converged. }
  unfold frank_wolfe_assignment. by rewrite Hit, Hit'.
Qed.

(** X23: the index of the edges is the inverse of the edge list: an edge is
    mapped to [i] exactly when it is the edge at position [i]. *)
Theorem edge_index_round_trip edges e i :
  NoDup edges ->
  Dict.get (make_edge_index edges) e = Some i <-> edges !! i = Some e.
Proof.
  intros Hnd. split; [|by apply edge_index_get].
  intros Hget. apply Dict_get_Some_elem in Hget.
  rewrite make_edge_index_NoDup in Hget by done.
  by apply elem_of_imap_swap.
Qed.

(** *** Demands that cannot be routed, and graphs without edges *)

(** X24: the graph that is searched holds the nodes that have an edge, and
    no others.  A demand whose origin or destination has no edge at all is
    therefore skipped like a demand between unknown nodes, also when the
    node is in the graph: the query raises [NodeNotFound], [aon] adds
    nothing, and the travel time is [None]. *)
Theorem node_without_edges_is_skipped g demands costs Ha Ht o d q :
  aon_graph (G_edges g) costs = Ok Ha ->
  travel_graph g = Ok Ht ->
  shortest_path_contract nx_shortest_path Ha o d ->
  shortest_path_contract nx_shortest_path Ht o d ->
  o ∉ endpoints (G_edges g) \/ d ∉ endpoints (G_edges g) ->
  (forall x, x ∈ nx_nodes Ha <-> x ∈ endpoints (G_edges g))
  /\ (forall x, x ∈ nx_nodes Ht <-> x ∈ endpoints (G_edges g))
  /\ nx_shortest_path Ha o d = Raise NodeNotFound
  /\ nx_shortest_path Ht o d = Raise NodeNotFound
  /\ demand_is_skipped nx_shortest_path py_sum g demands costs Ha o d q.
Proof.
  intros Ha_eq Ht_eq Hca Hct Hmissing.
  assert (Hnodes : forall H ws,
    length ws = length (G_edges g) ->
    H = nx_add_edges nx_empty (zip (G_edges g) ws) ->
    forall x, x ∈ nx_nodes H <-> x ∈ endpoints (G_edges g)).
  { intros H ws Hlen -> x. rewrite nx_nodes_add_edges, fst_zip_edges by done.
    split; [|by right]. intros [Hx|Hx]; [|done]. by apply elem_of_nil in Hx. }
  destruct (aon_graph_built _ _ _ Ha_eq) as (wa & Hla & Hwa & _).
  destruct (travel_graph_built _ _ Ht_eq) as (wt & Hlt & Hwt).
  pose proof (Hnodes Ha wa Hla Hwa) as Hna.
  pose proof (Hnodes Ht wt Hlt Hwt) as Hnt.
  assert (He1 : nx_shortest_path Ha o d = Raise NodeNotFound).
  { apply (sp_node_not_found _ _ _ _ Hca). rewrite !Hna. done. }
  assert (He2 : nx_shortest_path Ht o d = Raise NodeNotFound).
  { apply (sp_node_not_found _ _ _ _ Hct). rewrite !Hnt. done. }
  split; [done|]. split; [done|]. split; [done|]. split; [done|].
  by eapply raising_demand_is_skipped.
Qed.

Lemma simple_loop_is_trivial (p : list Z) o :
  head p = Some o -> last p = Some o -> NoDup p -> p = [o].
Proof.
  destruct p as [|a [|b r]]; [done|by intros [= ->]|].
  intros [= ->] Hl Hnd. exfalso.
  change (last (o :: b :: r)) with (last (b :: r)) in Hl.
  apply last_Some in Hl as [l' Hl]. apply NoDup_cons in Hnd as [Hnd _].
  apply Hnd. rewrite Hl. apply elem_of_app. right. by left.
Qed.

(** X25: a demand from a node to itself.  When the node has an edge and no
    weight is negative, the path found is the node alone: [aon] adds nothing
    for the demand, and its travel time is the empty sum. *)
Theorem self_demand_adds_nothing g edges H (y : vec) o q :
  shortest_path_contract nx_shortest_path H o o ->
  nx_nonneg_weights H ->
  o ∈ nx_nodes H ->
  nx_shortest_path H o o = Ok [o]
  /\ aon_demand nx_shortest_path edges H y (o, o, q) = Ok y
  /\ od_total_cost nx_shortest_path py_sum g H o o = Ok (py_sum []).
Proof.
  intros Hc Hpos Ho.
  assert (Hhas : nx_has_path H o o).
  { exists [o]. split; [done|]. split; [done|].
    split; [constructor|]. by repeat constructor. }
  destruct (sp_finds _ _ _ _ Hc Hpos Hhas) as [p Hp].
  destruct (sp_shortest _ _ _ _ Hc p Hp) as ((Hh & Hl & _) & Hgood).
  destruct (Hgood Hpos) as [Hsimple _].
  rewrite (simple_loop_is_trivial p o Hh Hl Hsimple) in Hp.
  split; [done|]. unfold aon_demand, od_total_cost. by rewrite Hp.
Qed.

Lemma aon_no_edges demands costs :
  (forall H o d, nx_shortest_path H o d <> OutsideModel) ->
  aon nx_shortest_path [] demands costs = Ok [].
Proof.
  intros Hsp. unfold aon. cbn [aon_graph enumerate imap for_each mbind result_bind].
  change (zeros (length (@nil edge))) with (@nil float).
  induction demands as [|[[o d] q] demands IH]; [done|].
  cbn [for_each].
  assert (Hstep : aon_demand nx_shortest_path [] nx_empty [] (o, d, q) = Ok []).
  { unfold aon_demand.
    destruct (nx_shortest_path nx_empty o d) as [p| |] eqn:Hq;
      [|done|by apply Hsp in Hq].
    by destruct (path_edges p). }
  rewrite Hstep. exact IH.
Qed.

Lemma fw_loop_no_edges g demands tol n :
  (forall H o d, nx_shortest_path H o d <> OutsideModel) ->
  fw_loop np_dot nx_shortest_path g [] demands tol n [] = Ok [].
Proof.
  intros Hsp. induction n as [|n IH]; [done|].
  cbn [fw_loop]. change (costs_at g [] []) with (@Ok vec []).
  cbn [mbind result_bind]. rewrite aon_no_edges by done.
  cbn [mbind result_bind].
  destruct (_ <? _)%float; [done|].
  unfold line_search.
  rewrite (golden_rounds_total np_dot g [] [] (vsub [] [])
             (fun alpha => np_dot [] [])) by done.
  cbn [mbind result_bind].
  destruct (spec_bracket _ _ _) as [a b]. cbn [mbind result_bind]. exact IH.
Qed.

(** X26: on a graph without edges a run does not fail, whatever the demands
    and whatever [nx.shortest_path] does with them: it returns the empty
    mapping. *)
Theorem no_edges_no_flows g demands max_iter tol :
  G_edges g = [] ->
  (forall H o d, nx_shortest_path H o d <> OutsideModel) ->
  solve_with g demands max_iter tol = (Ok [], reset_flows g).
Proof.
  intros Hedges Hsp. unfold frank_wolfe_assignment. rewrite Hedges.
  assert (Hit : fw_iterate np_dot nx_shortest_path (reset_flows g) []
                  demands tol max_iter = Ok []).
  { unfold fw_iterate.
    change (costs_at (reset_flows g) [] (zeros (length (@nil edge))))
      with (@Ok vec []).
    cbn [mbind result_bind]. rewrite aon_no_edges by done.
    cbn [mbind result_bind]. by apply fw_loop_no_edges. }
  by rewrite Hit.
Qed.

End FurtherSolver.

(** ** The further properties at concrete networks *)

Lemma wf_pole_net : wf_graph pole_net.
Proof.
  split; [compute_done|].
  repeat (apply Forall_cons; split; [split; compute_done|]). constructor.
Qed.

Lemma search_returns_or_raises H o d : search_shortest_path H o d <> OutsideModel.
Proof.
  unfold search_shortest_path. destruct (_ || _); [done|].
  by destruct (simple_paths _ _ _ _ _ _).
Qed.

Lemma failing_cost_fails_the_run_witness :
  wf_graph pole_net
  /\ frank_wolfe_assignment dot_seq search_shortest_path pole_net
       [(1, 3, 10%float)] 80 0x1p-14%float
     = (Raise ZeroDivisionError, reset_flows pole_net).
Proof.
  split; [exact wf_pole_net|].
  apply (failing_cost_fails_the_run dot_seq search_shortest_path pole_net
           [(1, 3, 10%float)] 80 0x1p-14%float 1 2 3 ZeroDivisionError
           wf_pole_net).
  - reflexivity.
  - intros [|i] a b Hi Ha; [|lia]. vm_compute in Ha. simplify_eq.
    exists 5%float. vm_compute. reflexivity.
  - vm_compute. reflexivity.
Defined.

Lemma no_iterations_gives_aon_seed_witness :
  wf_graph one_edge_net_used
  /\ exists ret g',
       frank_wolfe_assignment dot_seq search_shortest_path one_edge_net_used
         [(1, 2, 100%float)] 0 0x1p-14%float = (Ok ret, g')
       /\ Dict.keys ret = G_edges one_edge_net_used
       /\ forall i u v, G_edges one_edge_net_used !! i = Some (u, v) ->
            exists x, [100%float] !! i = Some x
              /\ get_flow g' u v = Ok x /\ Dict.get ret (u, v) = Some x.
Proof.
  assert (Hwf : wf_graph one_edge_net_used).
  { split; [compute_done|].
    repeat (apply Forall_cons; split; [split; compute_done|]).
    constructor. }
  split; [exact Hwf|].
  apply (no_iterations_gives_aon_seed dot_seq search_shortest_path
           one_edge_net_used [(1, 2, 100%float)] 0x1p-14%float
           [5%float] [100%float] Hwf).
  - vm_compute. reflexivity.
  - vm_compute. reflexivity.
Defined.

Lemma no_demand_no_flow_witness :
  wf_graph one_edge_net_used
  /\ exists ret g',
       frank_wolfe_assignment dot_seq search_shortest_path one_edge_net_used
         [] 80 0x1p-14%float = (Ok ret, g')
       /\ Dict.keys ret = G_edges one_edge_net_used
       /\ forall u v, (u, v) ∈ G_edges one_edge_net_used ->
            get_flow g' u v = Ok 0%float /\ Dict.get ret (u, v) = Some 0%float.
Proof.
  assert (Hwf : wf_graph one_edge_net_used).
  { split; [compute_done|].
    repeat (apply Forall_cons; split; [split; compute_done|]).
    constructor. }
  split; [exact Hwf|].
  apply (no_demand_no_flow dot_seq search_shortest_path one_edge_net_used
           80 0x1p-14%float Hwf).
  - intros u v Hin. vm_compute in Hin.
    apply list_elem_of_singleton in Hin. injection Hin as -> ->.
    exists 5%float. vm_compute. reflexivity.
  - right. vm_compute. reflexivity.
Defined.

Lemma line_search_step_is_inside_witness :
  line_search dot_seq detour_net (G_edges detour_net) [10; 0; 0]%float
    (vsub [0; 10; 10]%float [10; 0; 0]%float) = Ok detour_step_size
  /\ (0 <? detour_step_size)%float = true
  /\ (detour_step_size <? 1)%float = true
  /\ exists a b, detour_step_size = ((a + b) / 2)%float
       /\ (0 <=? a)%float = true /\ (a <? b)%float = true
       /\ (b <=? 1)%float = true /\ (b - a <? 0x1p-13)%float = true.
Proof.
  assert (Hrun : line_search dot_seq detour_net (G_edges detour_net)
                   [10; 0; 0]%float (vsub [0; 10; 10]%float [10; 0; 0]%float)
                 = Ok detour_step_size) by (vm_compute; reflexivity).
  split; [exact Hrun|].
  exact (line_search_step_is_inside dot_seq detour_net (G_edges detour_net)
           [10; 0; 0]%float (vsub [0; 10; 10]%float [10; 0; 0]%float)
           detour_step_size Hrun).
Defined.

Lemma aon_never_raises_witness :
  (length [(1, 2); (1, 3)] <= length [5%float; 5%float])%nat
  /\ exists y,
       aon search_shortest_path [(1, 2); (1, 3)]
         [(1, 2, 100%float); (2, 3, 50%float); (9, 1, 5%float)]
         [5%float; 5%float] = Ok y
       /\ length y = length [(1, 2); (1, 3)].
Proof.
  split; [simpl; lia|].
  apply (aon_never_raises search_shortest_path); [simpl; lia|].
  apply search_returns_or_raises.
Defined.

Lemma travel_times_cover_the_demands_witness :
  travel_graph fork_net = Ok fork_H
  /\ exists m,
       compute_od_travel_times search_shortest_path sum_seq fork_net
         [(1, 2, 100%float); (2, 3, 50%float)] = Ok m
       /\ forall o d, is_Some (Dict.get m (o, d)) <->
            exists q, (o, d, q) ∈ [(1, 2, 100%float); (2, 3, 50%float)].
Proof.
  assert (Hrun : travel_graph fork_net = Ok fork_H) by (vm_compute; reflexivity).
  split; [exact Hrun|].
  apply (travel_times_cover_the_demands search_shortest_path sum_seq fork_net
           [(1, 2, 100%float); (2, 3, 50%float)] fork_H Hrun).
  intros o d. apply search_returns_or_raises.
Defined.


(** The travel time of the example: the cost 5 of the one edge. *)
Example one_edge_travel_time :
  compute_od_travel_times search_shortest_path sum_seq one_edge_net
    [(1, 2, 100%float)] = Ok [((1, 2), Some 5%float)].
Proof. vm_compute. reflexivity. Qed.

Lemma converged_run_ignores_the_cap_witness :
  fw_iterate dot_seq search_shortest_path (reset_flows one_edge_net)
    (G_edges one_edge_net) [(1, 2, 100%float)] 0x1p-14%float 1
  = Ok [100%float]
  /\ frank_wolfe_assignment dot_seq search_shortest_path one_edge_net
       [(1, 2, 100%float)] (1 + 79) 0x1p-14%float
     = frank_wolfe_assignment dot_seq search_shortest_path one_edge_net
         [(1, 2, 100%float)] 1 0x1p-14%float.
Proof.
  assert (Hit : fw_iterate dot_seq search_shortest_path (reset_flows one_edge_net)
                  (G_edges one_edge_net) [(1, 2, 100%float)] 0x1p-14%float 1
                = Ok [100%float]) by (vm_compute; reflexivity).
  split; [exact Hit|].
  apply (converged_run_ignores_the_cap dot_seq search_shortest_path
           one_edge_net [(1, 2, 100%float)] 0x1p-14%float 1 79
           [100%float] [5%float] [100%float] Hit);
    vm_compute; reflexivity.
Defined.

Lemma edge_index_round_trip_witness :
  NoDup [(1, 2); (1, 3); (3, 2)]
  /\ (Dict.get (make_edge_index [(1, 2); (1, 3); (3, 2)]) (1, 3) = Some 1%nat
      <-> [(1, 2); (1, 3); (3, 2)] !! 1%nat = Some (1, 3)).
Proof.
  assert (Hnd : NoDup [(1, 2); (1, 3); (3, 2)]) by compute_done.
  split; [exact Hnd|].
  exact (edge_index_round_trip [(1, 2); (1, 3); (3, 2)] (1, 3) 1 Hnd).
Defined.

Lemma path_weight_nonneg H p : nx_nonneg_weights H -> nonneg (path_weight H p).
Proof.
  intros Hpos. unfold path_weight.
  assert (Hgen : forall pairs acc, nonneg acc ->
    nonneg (fold_left (fun acc '(a, b) => (acc + default 0 (nx_weight H a b))%float)
              pairs acc)).
  { induction pairs as [|[a b] pairs IH]; intros acc Hacc; [done|].
    simpl. apply IH. apply nonneg_add; [done|].
    destruct (nx_weight H a b) as [w|] eqn:Hw; [by eapply Hpos|].
    vm_compute. reflexivity. }
  apply Hgen. vm_compute. reflexivity.
Qed.

Lemma search_contract_one_edge_1_1 :
  shortest_path_contract search_shortest_path one_edge_H 1 1.
Proof.
  assert (Hpath : nx_path one_edge_H 1 1 [1]).
  { split; [done|]. split; [done|]. split; [constructor|].
    apply Forall_cons. split; [compute_done|constructor]. }
  split.
  - intros [Hn|Hn]; exfalso; apply Hn; compute_done.
  - intros _ _ Hno. destruct Hno. by exists [1].
  - intros _ _. exists [1]. vm_compute. reflexivity.
  - intros p Hp. vm_compute in Hp. injection Hp as <-.
    split; [done|]. intros Hpos. split; [compute_done|].
    intros p' _. apply (path_weight_nonneg one_edge_H p' Hpos).
Qed.

Lemma node_without_edges_is_skipped_witness :
  9 ∈ G_nodes lonely_net
  /\ (9 ∉ endpoints (G_edges lonely_net) \/ 1 ∉ endpoints (G_edges lonely_net))
  /\ (forall x, x ∈ nx_nodes fork_H <-> x ∈ endpoints (G_edges lonely_net))
  /\ (forall x, x ∈ nx_nodes fork_H <-> x ∈ endpoints (G_edges lonely_net))
  /\ search_shortest_path fork_H 9 1 = Raise NodeNotFound
  /\ search_shortest_path fork_H 9 1 = Raise NodeNotFound
  /\ demand_is_skipped search_shortest_path sum_seq lonely_net
       [(9, 1, 5%float)] [5; 5]%float fork_H 9 1 5.
Proof.
  assert (Hout : 9 ∉ endpoints (G_edges lonely_net)
                 \/ 1 ∉ endpoints (G_edges lonely_net))
    by (left; compute_done).
  split; [compute_done|]. split; [exact Hout|].
  apply (node_without_edges_is_skipped search_shortest_path sum_seq lonely_net
           [(9, 1, 5%float)] [5; 5]%float fork_H fork_H).
  - vm_compute. reflexivity.
  - vm_compute. reflexivity.
  - apply search_contract_fork_9_1.
  - apply search_contract_fork_9_1.
  - exact Hout.
Defined.

Lemma self_demand_adds_nothing_witness :
  nx_nonneg_weights one_edge_H
  /\ 1 ∈ nx_nodes one_edge_H
  /\ search_shortest_path one_edge_H 1 1 = Ok [1]
  /\ aon_demand search_shortest_path [(1, 2)] one_edge_H [0%float] (1, 1, 7%float)
     = Ok [0%float]
  /\ od_total_cost search_shortest_path sum_seq one_edge_net one_edge_H 1 1
     = Ok (sum_seq []).
Proof.
  assert (Hpos : nx_nonneg_weights one_edge_H).
  { intros a b w Hw.
    assert (Hs : is_Some (nx_weight one_edge_H a b)) by (by eexists).
    apply nx_weight_add_edges_is_Some in Hs as [[? Hs]|Hin];
      [vm_compute in Hs; discriminate|].
    apply list_elem_of_singleton in Hin. injection Hin as -> ->.
    vm_compute in Hw. injection Hw as <-. vm_compute. reflexivity. }
  assert (Hin : 1 ∈ nx_nodes one_edge_H) by compute_done.
  split; [exact Hpos|]. split; [exact Hin|].
  exact (self_demand_adds_nothing search_shortest_path sum_seq one_edge_net
           [(1, 2)] one_edge_H [0%float] 1 7%float
           search_contract_one_edge_1_1 Hpos Hin).
Defined.

Lemma no_edges_no_flows_witness :
  G_edges single_node_net = []
  /\ frank_wolfe_assignment dot_seq search_shortest_path single_node_net
       [(1, 1, 5%float); (1, 2, 5%float)] 80 0x1p-14%float
     = (Ok [], reset_flows single_node_net).
Proof.
  split; [reflexivity|].
  apply (no_edges_no_flows dot_seq search_shortest_path single_node_net
           [(1, 1, 5%float); (1, 2, 5%float)] 80 0x1p-14%float);
    [reflexivity|].
  apply search_returns_or_raises.
Defined.

(** ** A run followed by the travel times *)

Section Recalculate.
Variable np_dot : vec -> vec -> float.
Variable nx_shortest_path : wdigraph -> Z -> Z -> result (list Z).

Lemma get_cost_network g1 g2 u v x :
  network_of g1 = network_of g2 ->
  get_cost g1 u v (Some x) = get_cost g2 u v (Some x).
Proof.
  intros Hnet. rewrite <- (get_cost_reset_flows g1), <- (get_cost_reset_flows g2).
  by rewrite (reset_flows_network g1), Hnet, <- reset_flows_network.
Qed.

(** X28: what the window's [recalculate] shows.  When a run has returned,
    the travel times computed next from the graph are based on the returned
    flows: the weight of every edge in the graph that is searched is the
    edge's cost at the flow that the run returned (and stored) for it. *)
Theorem travel_times_use_final_flows g demands max_iter tol ret g' Ht u v w :
  wf_graph g ->
  frank_wolfe_assignment np_dot nx_shortest_path g demands max_iter tol
  = (Ok ret, g') ->
  travel_graph g' = Ok Ht ->
  nx_weight Ht u v = Some w ->
  exists x, Dict.get ret (u, v) = Some x
    /\ get_flow g' u v = Ok x
    /\ get_cost g u v (Some x) = Ok w.
Proof.
  intros Hwf Hs Ht_eq Hw.
  destruct (fw_iterate np_dot nx_shortest_path (reset_flows g) (G_edges g)
              demands tol max_iter) as [fin| |] eqn:Hit;
    [|unfold frank_wolfe_assignment in Hs; by rewrite Hit in Hs..].
  destruct (solve_returns np_dot nx_shortest_path g demands max_iter tol fin
              Hwf Hit) as (ret0 & g0 & Hs0 & Hnet & _ & Hflows).
  rewrite Hs0 in Hs. injection Hs as -> ->.
  assert (Hwf' : wf_graph g').
  { apply (wf_graph_shape g); [|done]. symmetry. by apply shape_network. }
  destruct (travel_graph_weights g' Ht u v w Hwf' Ht_eq Hw) as (d & Hd & Hc).
  assert (Hin : (u, v) ∈ G_edges g).
  { rewrite (G_edges_network g), <- Hnet, <- G_edges_network.
    apply G_item_Ok in Hd as (nbrs & Ha & Hb). apply elem_of_G_edges.
    exists nbrs. split; [by apply Dict_get_Some_elem|].
    apply Dict_get_is_Some. by eexists. }
  apply list_elem_of_lookup_1 in Hin as [i Hi].
  destruct (Hflows i u v Hi) as (x & _ & Hx & Hr).
  exists x. split; [done|]. split; [done|].
  unfold get_flow in Hx. rewrite Hd in Hx. injection Hx as <-.
  by rewrite <- (get_cost_network g' g).
Qed.

End Recalculate.

Lemma travel_times_use_final_flows_witness :
  wf_graph detour_net
  /\ exists ret g' Ht w,
       frank_wolfe_assignment dot_seq search_shortest_path detour_net
         [(1, 2, 10%float)] 80 0x1p-14%float = (Ok ret, g')
       /\ travel_graph g' = Ok Ht
       /\ nx_weight Ht 1 2 = Some w
       /\ exists x, Dict.get ret (1, 2) = Some x
            /\ get_flow g' 1 2 = Ok x
            /\ get_cost detour_net 1 2 (Some x) = Ok w.
Proof.
  assert (Hwf : wf_graph detour_net).
  { split; [compute_done|].
    repeat (apply Forall_cons; split; [split; compute_done|]).
    constructor. }
  split; [exact Hwf|].
  destruct (frank_wolfe_assignment dot_seq search_shortest_path detour_net
              [(1, 2, 10%float)] 80 0x1p-14%float) as [[ret| |] g'] eqn:Hs;
    [|vm_compute in Hs; discriminate..].
  destruct (travel_graph g') as [Ht| |] eqn:Ht_eq;
    [|vm_compute in Hs; injection Hs as <- <-; vm_compute in Ht_eq; discriminate..].
  destruct (nx_weight Ht 1 2) as [w|] eqn:Hw;
    [|vm_compute in Hs; injection Hs as <- <-; vm_compute in Ht_eq;
      injection Ht_eq as <-; vm_compute in Hw; discriminate].
  exists ret, g', Ht, w. split; [done|]. split; [done|]. split; [done|].
  exact (travel_times_use_final_flows dot_seq search_shortest_path detour_net
           [(1, 2, 10%float)] 80 0x1p-14%float ret g' Ht 1 2 w Hwf Hs Ht_eq Hw).
Defined.

(** The run on [detour_net].  The line search minimises the dot product of
    costs and flows, here [x*x + 2*(10 - x)] for the flow [x] of the direct
    edge, so the run ends near [x = 1], not at [x = 2] where both routes
    cost the same. *)
Example detour_run :
  match frank_wolfe_assignment dot_seq search_shortest_path detour_net
          [(1, 2, 10%float)] 80 0x1p-14%float with
  | (Ok ret, _) =>
      match Dict.get ret (1, 2) with
      | Some x => ((1 <? x) && (x <? 1.0625))%float
      | None => false
      end
  | _ => false
  end = true.
Proof. vm_compute. reflexivity. Qed.

(** Removing node 3 of [fork_net] leaves the edge [1 -> 2], and the window
    numbers the next node 4. *)
Example remove_node_example :
  (match remove_node fork_net 3 with
   | NxOk g' => G_nodes g' = [1; 2] /\ G_edges g' = [(1, 2)]
   | NetworkXError => False
   end)
  /\ remove_node fork_net 9 = NetworkXError
  /\ fst (MainWindow.add_node fork_net) = 4.
Proof. split; [|split]; vm_compute; auto. Qed.
